(** * Square Transport website: the client-side interaction layer

    A shallow embedding of the two scripts of the site, the main script
    (class [SquareWebsite]) and [src/scripts/animations.js] (class
    [SquareAnimations]), and the properties of navigation, scroll reveal,
    counters, notifications, data hydration and the GSAP engine that the
    specification states about them.

    Conventions of the embedding:
    - a JavaScript number is [NaN] or an exact rational: the rounding of
      IEEE doubles and the two infinities are left out;
    - a DOM [classList] is a finite set of class names;
    - browser callbacks (interval ticks, timers, observer entries, clicks)
      are functions from state to state, run by an explicit host loop. *)

From Stdlib Require Import ZArith QArith Qround Lia Lqa Ascii DecimalString.
From Stdlib Require Import DecimalPos.
From stdpp Require Import base gmap sets list strings.

#[local] Set Warnings "-clear-no-such-hyp,-register-all".

(** ** JavaScript values used by the scripts *)

Module JS.

Inductive number : Type :=
  | NaN
  | Num (q : Q).

Definition of_Z (z : Z) : number := Num (inject_Z z).

(** [a + b] on numbers. *)
Definition add (a b : number) : number :=
  match a, b with
  | Num x, Num y => Num (x + y)
  | _, _ => NaN
  end.

(** [a * b] on numbers. *)
Definition mul (a b : number) : number :=
  match a, b with
  | Num x, Num y => Num (x * y)
  | _, _ => NaN
  end.

(** [a / b]; a zero divisor gives an infinity or NaN in JavaScript and is
    rendered as [NaN] here (the scripts only divide by the literal 60). *)
Definition div (a b : number) : number :=
  match a, b with
  | Num x, Num y => if Qeq_bool y 0 then NaN else Num (x / y)
  | _, _ => NaN
  end.

(** [a >= b]: false as soon as one side is NaN. *)
Definition ge (a b : number) : bool :=
  match a, b with
  | Num x, Num y => Qle_bool y x
  | _, _ => false
  end.

(** [a > b]. *)
Definition gt (a b : number) : bool :=
  match a, b with
  | Num x, Num y => negb (Qle_bool x y)
  | _, _ => false
  end.

Definition isNaN (a : number) : bool :=
  match a with NaN => true | Num _ => false end.

Definition Math_floor (a : number) : number :=
  match a with
  | NaN => NaN
  | Num x => of_Z (Qfloor x)
  end.

(** [Math.round]: the nearest integer, halves upwards. *)
Definition Math_round (a : number) : number :=
  match a with
  | NaN => NaN
  | Num x => of_Z (Qfloor (x + (1 # 2)))
  end.

Definition Z_to_string (z : Z) : string := NilZero.string_of_int (Z.to_int z).

(** Number to string, as string concatenation and [textContent] do it. The
    scripts only convert results of [Math.floor], so the integer part is
    printed in decimal. *)
Definition ToString (a : number) : string :=
  match a with
  | NaN => "NaN"
  | Num x => Z_to_string (Qfloor x)
  end.

(** [s.includes(pat)] *)
Fixpoint includes (pat s : string) : bool :=
  String.prefix pat s ||
  match s with
  | EmptyString => false
  | String _ r => includes pat r
  end.

(** Occurrence of one character, the case of [includes] the scripts use. *)
Fixpoint has_char (c : ascii) (s : string) : bool :=
  match s with
  | EmptyString => false
  | String d r => Ascii.eqb c d || has_char c r
  end.

(** [s.replace(c, '')] for a one-character pattern: the first occurrence
    goes. *)
Fixpoint remove_first (c : ascii) (s : string) : string :=
  match s with
  | EmptyString => EmptyString
  | String d r => if Ascii.eqb c d then r else String d (remove_first c r)
  end.

(** The characters of decimal output: digits and the minus sign. *)
Definition numeric_char (c : ascii) : bool := has_char c "-0123456789".

(** *** [parseInt(s)] without a radix *)

Definition code (c : ascii) : Z := Z.of_nat (nat_of_ascii c).

Definition is_white (c : ascii) : bool :=
  ((9 <=? code c) && (code c <=? 13) || (code c =? 32))%Z.

Fixpoint skip_white (s : string) : string :=
  match s with
  | String c r => if is_white c then skip_white r else s
  | EmptyString => EmptyString
  end.

Definition dec_digit (c : ascii) : option Z :=
  if ((48 <=? code c) && (code c <=? 57))%Z then Some (code c - 48)%Z else None.

Definition hex_digit (c : ascii) : option Z :=
  if ((48 <=? code c) && (code c <=? 57))%Z then Some (code c - 48)%Z
  else if ((97 <=? code c) && (code c <=? 102))%Z then Some (code c - 87)%Z
  else if ((65 <=? code c) && (code c <=? 70))%Z then Some (code c - 55)%Z
  else None.

(** The longest prefix of digits, read in the given radix; [acc] is [None]
    until a first digit has been seen. *)
Fixpoint parse_digits (radix : Z) (digit : ascii → option Z)
    (s : string) (acc : option Z) : option Z :=
  match s with
  | String c r =>
      match digit c with
      | Some d => parse_digits radix digit r (Some (radix * default 0 acc + d))%Z
      | None => acc
      end
  | EmptyString => acc
  end.

Definition parseInt (s : string) : number :=
  let s1 := skip_white s in
  let '(sign, s2) :=
    match s1 with
    | String "-"%char r => ((-1)%Z, r)
    | String "+"%char r => (1%Z, r)
    | _ => (1%Z, s1)
    end in
  let '(radix, digit, s3) :=
    match s2 with
    | String "0"%char (String "x"%char r) => (16%Z, hex_digit, r)
    | String "0"%char (String "X"%char r) => (16%Z, hex_digit, r)
    | _ => (10%Z, dec_digit, s2)
    end in
  match parse_digits radix digit s3 None with
  | Some v => of_Z (sign * v)
  | None => NaN
  end.

(** [s.replace(/[^0-9]/g, '')]: the decimal digits of [s]. *)
Fixpoint keep_digits (s : string) : string :=
  match s with
  | EmptyString => EmptyString
  | String c r =>
      match dec_digit c with
      | Some _ => String c (keep_digits r)
      | None => keep_digits r
      end
  end.

End JS.

(** ** Counter animator: [setupCounterAnimations] *)

Module Counter.
Import JS.

(** An element matched by [[data-target]]. *)
Record counter : Type := {
  data_target : string;
  textContent : string
}.

(** The variables closed over by the interval callback of [startCounter];
    [timer] is true while the interval is set. *)
Record animation : Type := {
  target : number;
  increment : number;
  current : number;
  timer : bool;
  element : counter
}.

Definition startCounter (c : counter) : animation :=
  let target := parseInt (data_target c) in
  {| target := target;
     increment := div target (of_Z 60);
     current := of_Z 0;
     timer := true;
     element := c |}.

(** The text written by one callback, chosen from the text it finds. *)
Definition render (text : string) (cur : number) : string :=
  if includes "%" text then ToString (Math_floor cur) +:+ "%"
  else if includes "M" text then "$" +:+ ToString (Math_floor cur) +:+ "M"
  else ToString (Math_floor cur).

(** One run of the interval callback. *)
Definition tick (a : animation) : animation :=
  let cur := add (current a) (increment a) in
  let reached := ge cur (target a) in
  let cur := if reached then target a else cur in
  {| target := target a;
     increment := increment a;
     current := cur;
     timer := negb reached;
     element :=
       {| data_target := data_target (element a);
          textContent := render (textContent (element a)) cur |} |}.

(** The host runs the callback every 50 ms for as long as the interval is
    set; [frames n a] lists the states after each of the first [n] runs. *)
Fixpoint frames (n : nat) (a : animation) : list animation :=
  match n with
  | O => []
  | S n => if timer a then tick a :: frames n (tick a) else []
  end.

Definition displayed (a : animation) : number := Math_floor (current a).
Definition text (a : animation) : string := textContent (element a).

(** The three display formats, and the one each branch of [render] writes. *)
Inductive format : Type := Percentage | CurrencyMillions | PlainInteger.

Definition show (f : format) (v : number) : string :=
  match f with
  | Percentage => ToString v +:+ "%"
  | CurrencyMillions => "$" +:+ ToString v +:+ "M"
  | PlainInteger => ToString v
  end.

(** The format [render] infers: the tests of its two conditions, in order. *)
Definition format_of (text : string) : format :=
  if includes "%" text then Percentage
  else if includes "M" text then CurrencyMillions
  else PlainInteger.


(** The values of [current] along the frames [fs] never decrease, from [c]
    on, and never pass [t]. *)
Fixpoint ascending (c t : Q) (fs : list animation) : Prop :=
  match fs with
  | [] => True
  | b :: rest =>
      ∃ q, current b = Num q ∧ (c <= q)%Q ∧ (q <= t)%Q ∧ ascending q t rest
  end.

(** Counters used as examples: the 70% statistic of the landing page, a
    target that is not a number, and a text with an M and no dollar sign. *)
Definition percent_70 : counter := {| data_target := "70"; textContent := "70%" |}.
Definition unparseable : counter := {| data_target := "abc"; textContent := "70%" |}.




End Counter.

(** ** Navigation controller: [setupNavigation], [updateActiveNavigation] *)

Module Nav.

(** [classList.toggle(c)]: the new list and the value returned, true when
    the class has been added. *)
Definition classList_toggle (c : string) (cl : gset string) : bool * gset string :=
  if decide (c ∈ cl) then (false, cl ∖ {[c]}) else (true, {[c]} ∪ cl).

Definition classList_add (c : string) (cl : gset string) : gset string := {[c]} ∪ cl.
Definition classList_remove (c : string) (cl : gset string) : gset string := cl ∖ {[c]}.

(** What the menu handlers touch: the toggle button, the mobile menu and
    the inline overflow style of the body. *)
Record page : Type := {
  toggle_classes : gset string;
  aria_expanded : option string;
  menu_classes : gset string;
  body_overflow : string
}.

(** The click handler of the toggle button. *)
Definition toggle_click (p : page) : page :=
  let '(isOpen, tc) := classList_toggle "nav__toggle--active" (toggle_classes p) in
  let '(_, mc) := classList_toggle "nav__menu--open" (menu_classes p) in
  {| toggle_classes := tc;
     aria_expanded := Some (if isOpen then "true" else "false");
     menu_classes := mc;
     body_overflow := if isOpen then "hidden" else "" |}.

(** The click handler of every link of the mobile menu. *)
Definition link_click (p : page) : page :=
  {| toggle_classes := classList_remove "nav__toggle--active" (toggle_classes p);
     aria_expanded := Some "false";
     menu_classes := classList_remove "nav__menu--open" (menu_classes p);
     body_overflow := "" |}.

(** The navigation state of the specification, read off the page. *)
Definition menuOpen (p : page) : bool :=
  bool_decide ("nav__menu--open" ∈ menu_classes p).
Definition scroll_locked (p : page) : bool :=
  bool_decide (body_overflow p = "hidden").

(** A page with the menu closed, as the markup delivers it. *)
Definition closed_page : page :=
  {| toggle_classes := {["nav__toggle"]};
     aria_expanded := Some "false";
     menu_classes := {["nav__menu"; "nav__menu--mobile"]};
     body_overflow := "" |}.

(** A [.nav__link] element. [pathname] is [new URL(link.href).pathname],
    [None] when the constructor throws because [href] is not a URL. *)
Record link : Type := {
  pathname : option string;
  classes : gset string;
  aria_current : option string
}.

(** The body of the [forEach] callback: the link after it, and whether it
    ran to its end; when [new URL] throws, the class and the attribute of
    the link have been cleared already. *)
Definition update_link (currentPath : string) (l : link) : link * bool :=
  let cleared :=
    {| pathname := pathname l;
       classes := classList_remove "nav__link--active" (classes l);
       aria_current := None |} in
  match pathname l with
  | None => (cleared, false)
  | Some linkPath =>
      if String.eqb linkPath currentPath ||
         (String.eqb currentPath "/" && String.eqb linkPath "/")
      then ({| pathname := pathname l;
               classes := classList_add "nav__link--active" (classes cleared);
               aria_current := Some "page" |}, true)
      else (cleared, true)
  end.

(** [updateActiveNavigation]: the links after the loop, and whether it ran
    to its end ([false]: a [TypeError] left the loop at the first link
    without a URL, the links after it untouched). *)
Fixpoint updateActiveNavigation (currentPath : string) (navLinks : list link)
    : list link * bool :=
  match navLinks with
  | [] => ([], true)
  | l :: rest =>
      match update_link currentPath l with
      | (l', true) =>
          let '(rest', ok) := updateActiveNavigation currentPath rest in
          (l' :: rest', ok)
      | (l', false) => (l' :: rest, false)
      end
  end.

Definition active (l : link) : bool :=
  bool_decide ("nav__link--active" ∈ classes l).
Definition current_page (l : link) : bool :=
  bool_decide (aria_current l = Some "page").
Definition matches (currentPath : string) (l : link) : bool :=
  bool_decide (pathname l = Some currentPath).

(** Two links to the home page, as a desktop bar and a mobile menu hold. *)
Definition home_link : link :=
  {| pathname := Some "/"; classes := {["nav__link"]}; aria_current := None |}.

End Nav.

(** ** Scroll-reveal engine: [setupScrollReveal] *)

Module Reveal.
Import JS.

(** An element of the page. [data_stagger] is [dataset.stagger] as the
    comparison and the product read it, [None] when the attribute is
    missing or empty; [transitionDelay] is in seconds, [None] when unset. *)
Record element : Type := {
  classes : gset string;
  data_stagger : option number;
  transitionDelay : option number
}.

Record observerOptions : Type := {
  threshold : Q;
  rootMargin : string
}.

(** One [IntersectionObserverEntry]. *)
Record entry : Type := {
  target : nat;
  isIntersecting : bool
}.

(** The page, keyed by node, and the observer with its options and the
    nodes it observes. *)
Record engine : Type := {
  elements : gmap nat element;
  options : observerOptions;
  observed : gset nat
}.

(** What the callback does to an intersecting target. *)
Definition reveal (e : element) : element :=
  let staggerDelay := default (of_Z 0) (data_stagger e) in
  {| classes := {["scroll-reveal--visible"]} ∪ classes e;
     data_stagger := data_stagger e;
     transitionDelay :=
       if gt staggerDelay (of_Z 0) then Some (mul staggerDelay (Num (1 # 10)))
       else transitionDelay e |}.

Definition on_entry (els : gmap nat element) (en : entry) : gmap nat element :=
  if isIntersecting en then alter reveal (target en) els else els.

(** The observer callback: [entries.forEach]. Nothing in it unobserves. *)
Definition callback (entries : list entry) (g : engine) : engine :=
  {| elements := foldl on_entry (elements g) entries;
     options := options g;
     observed := observed g |}.

(** [setupScrollReveal]: a new observer, observing every [.scroll-reveal]. *)
Definition setupScrollReveal (page : gmap nat element) : engine :=
  {| elements := page;
     options := {| threshold := 1 # 10; rootMargin := "0px 0px -50px 0px" |};
     observed := dom (filter (λ ne, "scroll-reveal" ∈ classes ne.2) page) |}.

(** The host reports entries of observed targets only. *)
Definition deliver (g : engine) (entries : list entry) : engine :=
  callback (List.filter (λ en, bool_decide (target en ∈ observed g)) entries) g.

Definition run (g : engine) (batches : list (list entry)) : engine :=
  foldl deliver g batches.

(** The revealed flag of a node. *)
Definition revealed_in (els : gmap nat element) (n : nat) : bool :=
  match els !! n with
  | Some e => bool_decide ("scroll-reveal--visible" ∈ classes e)
  | None => false
  end.
Definition revealed (g : engine) (n : nat) : bool := revealed_in (elements g) n.

(** Whether a batch reports node [n] as intersecting. *)
Definition reports (n : nat) (entries : list entry) : bool :=
  existsb (λ en, bool_decide (target en = n) && isIntersecting en) entries.

(** A page with one reveal target, of stagger 2, at node 0. *)
Definition one_target : gmap nat element :=
  {[ 0%nat := {| classes := {["scroll-reveal"]};
                 data_stagger := Some (of_Z 2);
                 transitionDelay := None |} ]}.

End Reveal.

(** ** Notifications: [showNotification] *)

Module Toast.

(** The inline style written through [cssText]; [animation] is assigned
    again by the first timer. *)
Record style : Type := {
  position : string;
  top : string;
  right : string;
  background : string;
  color : string;
  padding : string;
  border_radius : string;
  box_shadow : string;
  z_index : string;
  animation : string
}.

Record notification : Type := {
  className : string;
  css : style;
  textContent : string
}.

(** The two timer callbacks of [showNotification], each closed over the
    node of its notification: the outer one starts the exit animation and
    sets the inner one, which removes the element. *)
Inductive callback : Type :=
  | Dismiss (n : nat)
  | Detach (n : nat).

Definition node_of (cb : callback) : nat :=
  match cb with Dismiss n | Detach n => n end.

Record timer : Type := {
  due : Z;
  action : callback
}.

(** The host: its clock in milliseconds, the elements created so far, the
    children of the body in order, the pending timers in the order they
    were set, and the errors thrown out of callbacks. *)
Record host : Type := {
  now : Z;
  nodes : gmap nat notification;
  next_node : nat;
  body : list nat;
  timers : list timer;
  uncaught : list string
}.

Definition setTimeout (cb : callback) (delay : Z) (h : host) : host :=
  {| now := now h; nodes := nodes h; next_node := next_node h; body := body h;
     timers := timers h ++ [{| due := now h + delay; action := cb |}];
     uncaught := uncaught h |}.

(** [showNotification(message, type = 'info')]; [None] is an omitted type. *)
Definition showNotification (message : string) (type : option string) (h : host) : host :=
  let type := default "info" type in
  let notification :=
    {| className := "notification notification--" +:+ type;
       css := {| position := "fixed";
                 top := "20px";
                 right := "20px";
                 background := if String.eqb type "success"
                               then "var(--color-success)" else "var(--color-error)";
                 color := "white";
                 padding := "var(--spacing-4) var(--spacing-6)";
                 border_radius := "var(--border-radius-base)";
                 box_shadow := "var(--shadow-lg)";
                 z_index := "var(--z-toast)";
                 animation := "slideInRight 0.3s ease-out" |};
       textContent := message |} in
  setTimeout (Dismiss (next_node h)) 5000
    {| now := now h;
       nodes := <[next_node h := notification]> (nodes h);
       next_node := S (next_node h);
       body := body h ++ [next_node h];
       timers := timers h;
       uncaught := uncaught h |}.

Definition set_animation (a : string) (nt : notification) : notification :=
  {| className := className nt;
     css := {| position := position (css nt); top := top (css nt);
               right := right (css nt); background := background (css nt);
               color := color (css nt); padding := padding (css nt);
               border_radius := border_radius (css nt);
               box_shadow := box_shadow (css nt); z_index := z_index (css nt);
               animation := a |};
     textContent := textContent nt |}.

(** [document.body.removeChild(n)], which throws when [n] is not a child. *)
Definition removeChild (n : nat) (h : host) : host :=
  if bool_decide (n ∈ body h) then
    {| now := now h; nodes := nodes h; next_node := next_node h;
       body := filter (λ m, m ≠ n) (body h);
       timers := timers h; uncaught := uncaught h |}
  else
    {| now := now h; nodes := nodes h; next_node := next_node h; body := body h;
       timers := timers h; uncaught := uncaught h ++ ["NotFoundError"] |}.

Definition run_callback (cb : callback) (h : host) : host :=
  match cb with
  | Dismiss n =>
      setTimeout (Detach n) 300
        {| now := now h;
           nodes := alter (set_animation "slideOutRight 0.3s ease-in forwards") n (nodes h);
           next_node := next_node h; body := body h;
           timers := timers h; uncaught := uncaught h |}
  | Detach n => removeChild n h
  end.

(** The timer the host fires next, the earliest due and among equals the
    first set, with the timers left. *)
Fixpoint pick (ts : list timer) : option (timer * list timer) :=
  match ts with
  | [] => None
  | t :: rest =>
      match pick rest with
      | Some (t', rest') =>
          if (due t <=? due t')%Z then Some (t, rest) else Some (t', t :: rest')
      | None => Some (t, [])
      end
  end.

Definition set_clock (t : Z) (ts : list timer) (h : host) : host :=
  {| now := t; nodes := nodes h; next_node := next_node h; body := body h;
     timers := ts; uncaught := uncaught h |}.

(** The event loop up to time [until]: fire the due timers in order, each
    at its due time (or now, if that is later), then let the clock reach
    [until]. Each round fires one timer. *)
Fixpoint advance_fuel (fuel : nat) (until : Z) (h : host) : host :=
  match fuel with
  | O => h
  | S fuel =>
      match pick (timers h) with
      | Some (t, rest) =>
          if (due t <=? until)%Z
          then advance_fuel fuel until
                 (run_callback (action t) (set_clock (now h `max` due t)%Z rest h))
          else set_clock (now h `max` until)%Z (timers h) h
      | None => set_clock (now h `max` until)%Z (timers h) h
      end
  end.

(** A [Dismiss] fires once and sets one [Detach], which sets nothing: the
    pending timers bound the rounds the loop needs. *)
Definition weight (t : timer) : nat :=
  match action t with Dismiss _ => 2 | Detach _ => 1 end.
Definition rounds (ts : list timer) : nat := sum_list_with weight ts.

Definition advance (until : Z) (h : host) : host :=
  advance_fuel (S (rounds (timers h))) until h.

(** What happens to the page: a call of [showNotification], or time passing. *)
Inductive event : Type :=
  | Show (message : string) (type : option string)
  | Elapse (ms : N).

Definition play_event (h : host) (e : event) : host :=
  match e with
  | Show message type => showNotification message type h
  | Elapse ms => advance (now h + Z.of_N ms) h
  end.

Definition play (h : host) (es : list event) : host := foldl play_event h es.

(** The timers that belong to the notification at node [n]. *)
Definition timers_of (n : nat) (ts : list timer) : list timer :=
  filter (λ t, node_of (action t) = n) ts.

Definition animation_of (n : nat) (h : host) : option string :=
  (λ nt, animation (css nt)) <$> nodes h !! n.

(** The life of the notification at node [n], shown at time [t0]:
    entering, leaving, gone. *)
Inductive phase : Type := Entering | Leaving | Gone.

Definition in_phase (n : nat) (t0 : Z) (ph : phase) (h : host) : Prop :=
  match ph with
  | Entering =>
      n ∈ body h ∧ animation_of n h = Some "slideInRight 0.3s ease-out" ∧
      timers_of n (timers h) = [{| due := t0 + 5000; action := Dismiss n |}]
  | Leaving =>
      n ∈ body h ∧ animation_of n h = Some "slideOutRight 0.3s ease-in forwards" ∧
      timers_of n (timers h) = [{| due := t0 + 5300; action := Detach n |}]
  | Gone =>
      (n ∉ body h) ∧ timers_of n (timers h) = []
  end.

(** The phase at each moment of the clock. *)
Definition on_schedule (n : nat) (t0 : Z) (h : host) : Prop :=
  (n < next_node h)%nat ∧
  ((in_phase n t0 Entering h ∧ now h ≤ t0 + 5000) ∨
   (in_phase n t0 Leaving h ∧ t0 + 5000 ≤ now h ≤ t0 + 5300) ∨
   (in_phase n t0 Gone h ∧ t0 + 5300 ≤ now h))%Z.

(** No timer is overdue. *)
Definition quiet (h : host) : Prop := ∀ t, t ∈ timers h → (now h < due t)%Z.

(** A node that no element, child or timer of the host uses yet. *)
Definition unused (n : nat) (h : host) : Prop :=
  (n ∉ body h) ∧ timers_of n (timers h) = [].

(** On schedule, and none of the timers of [n] overdue. *)
Definition in_time (n : nat) (t0 : Z) (h : host) : Prop :=
  on_schedule n t0 h ∧ ∀ u, u ∈ timers_of n (timers h) → (now h < due u)%Z.

(** The time that passes in a list of events. *)
Definition elapsed (es : list event) : Z :=
  foldr (λ e acc, match e with Elapse ms => Z.of_N ms + acc | Show _ _ => acc end)%Z 0%Z es.

(** The message of the contact form. *)
Definition sent_message : string :=
  "Message sent successfully! We'll get back to you soon.".

(** A page just loaded. *)
Definition fresh_page : host :=
  {| now := 0; nodes := ∅; next_node := 0; body := []; timers := []; uncaught := [] |}.

End Toast.

(** ** Remote data hydration: [loadCompanyData], [populateCompanyData] *)

Module Hydration.
Import JS.

(** A JavaScript value as [response.json()] delivers it, with [undefined]
    for the properties an object lacks. The fields of an object are its
    own properties, each key once. *)
Inductive value : Type :=
  | VUndefined
  | VNull
  | VBool (b : bool)
  | VNum (n : number)
  | VStr (s : string)
  | VArr (items : list value)
  | VObj (fields : list (string * value)).

Fixpoint field (k : string) (fields : list (string * value)) : value :=
  match fields with
  | [] => VUndefined
  | (k', v) :: rest => if String.eqb k k' then v else field k rest
  end.

(** [v.k] for the property names the script reads; [None] is the
    [TypeError] of reading a property of [null] or [undefined]. *)
Definition get (v : value) (k : string) : option value :=
  match v with
  | VUndefined | VNull => None
  | VBool _ | VNum _ => Some VUndefined
  | VStr s =>
      Some (if String.eqb k "length"
            then VNum (of_Z (Z.of_nat (String.length s))) else VUndefined)
  | VArr items =>
      Some (if String.eqb k "length"
            then VNum (of_Z (Z.of_nat (length items))) else VUndefined)
  | VObj fields => Some (field k fields)
  end.

(** [v[0]] *)
Definition first (v : value) : option value :=
  match v with
  | VUndefined | VNull => None
  | VBool _ | VNum _ => Some VUndefined
  | VStr s =>
      Some (match s with
            | String c _ => VStr (String c "")
            | EmptyString => VUndefined
            end)
  | VArr items => Some (default VUndefined (head items))
  | VObj fields => Some (field "0" fields)
  end.

(** The value counts as true in a condition. *)
Definition truthy (v : value) : bool :=
  match v with
  | VUndefined | VNull => false
  | VBool b => b
  | VNum NaN => false
  | VNum (Num q) => negb (Qeq_bool q 0)
  | VStr s => negb (String.eqb s "")
  | VArr _ | VObj _ => true
  end.

(** The elements the script looks for. *)
Inductive selector : Type :=
  | DataAchievements
  | Badge
  | DataBenefit (key : string)
  | DataMarket (key : string).

(** The page: the text of each element node, and what [querySelector]
    finds from the document and from inside an element. The elements
    written hold text only, so writing their text moves no element. *)
Record document : Type := {
  text : gmap nat string;
  querySelector : selector → option nat;
  querySelector_in : nat → selector → option nat
}.

Definition set_text (n : nat) (s : string) (d : document) : document :=
  {| text := <[n := s]> (text d);
     querySelector := querySelector d;
     querySelector_in := querySelector_in d |}.

(** How a call ends: it returns, or throws, with the page as it is then. *)
Inductive outcome : Type :=
  | Returned (d : document)
  | Threw (error : string) (d : document).

Definition and_then (o : outcome) (k : document → outcome) : outcome :=
  match o with
  | Returned d => k d
  | Threw e d => Threw e d
  end.

Definition page_of (o : outcome) : document :=
  match o with Returned d | Threw _ d => d end.

(** Where the browser answers a request. *)
Inductive fetched : Type :=
  | Rejected (error : string)
  | Response (ok : bool) (json : option value).

Section Host.

(** The conversions of the host for values that are not already of the
    type wanted: to a number in a comparison, to text in [textContent]. *)
Variable ToNumber : value → number.
Variable ToText : value → string.

Definition to_number (v : value) : number :=
  match v with VNum n => n | _ => ToNumber v end.

Definition to_text (v : value) : string :=
  match v with VStr s => s | _ => ToText v end.

(** [if (element && obj.k) element.textContent = obj.k], the statement
    that [updateBenefits] and [updateMarketData] repeat. *)
Definition assign_if (element : option nat) (obj : value) (k : string)
    (d : document) : outcome :=
  match element with
  | None => Returned d
  | Some e =>
      match get obj k with
      | None => Threw "TypeError" d
      | Some v => if truthy v then Returned (set_text e (to_text v) d) else Returned d
      end
  end.

Definition updateAchievements (achievements : value) (d : document) : outcome :=
  match querySelector d DataAchievements with
  | None => Returned d
  | Some achievementsSection =>
      match get achievements "length" with
      | None => Threw "TypeError" d
      | Some len =>
          if gt (to_number len) (of_Z 0) then
            match first achievements with
            | None => Threw "TypeError" d
            | Some firstAchievement =>
                match querySelector_in d achievementsSection Badge with
                | None => Returned d
                | Some badge =>
                    match get firstAchievement "title" with
                    | None => Threw "TypeError" d
                    | Some title => Returned (set_text badge (to_text title) d)
                    end
                end
            end
          else Returned d
      end
  end.

Definition updateBenefits (benefits : value) (d : document) : outcome :=
  let costElement := querySelector d (DataBenefit "cost") in
  let energyElement := querySelector d (DataBenefit "energy") in
  let carbonElement := querySelector d (DataBenefit "carbon") in
  and_then (assign_if costElement benefits "cost_reduction" d) (λ d,
  and_then (assign_if energyElement benefits "energy_reduction" d) (λ d,
  assign_if carbonElement benefits "carbon_reduction" d)).

Definition updateMarketData (marketData : value) (d : document) : outcome :=
  let tamElement := querySelector d (DataMarket "tam") in
  let samElement := querySelector d (DataMarket "sam") in
  let somElement := querySelector d (DataMarket "som") in
  and_then (assign_if tamElement marketData "total_addressable_market" d) (λ d,
  and_then (assign_if samElement marketData "serviceable_addressable_market" d) (λ d,
  assign_if somElement marketData "serviceable_obtainable_market" d)).

(** [if (data.k) update(data.k)] *)
Definition when_present (data : value) (k : string)
    (update : value → document → outcome) (d : document) : outcome :=
  match get data k with
  | None => Threw "TypeError" d
  | Some v => if truthy v then update v d else Returned d
  end.

Definition populateCompanyData (data : value) (d : document) : outcome :=
  and_then (when_present data "achievements" updateAchievements d) (λ d,
  and_then (when_present data "benefits" updateBenefits d) (λ d,
  when_present data "market_data" updateMarketData d)).

(** [loadCompanyData], given what [fetch] came to: the page afterwards and
    the warnings written to the console. Nothing leaves its [try]. *)
Definition loadCompanyData (f : fetched) (d : document) : document * list string :=
  match f with
  | Rejected error => (d, ["Could not load company data: " +:+ error])
  | Response false _ => (d, [])
  | Response true None => (d, ["Could not load company data: SyntaxError"])
  | Response true (Some data) =>
      match populateCompanyData data d with
      | Returned d' => (d', [])
      | Threw error d' => (d', ["Could not load company data: " +:+ error])
      end
  end.

End Host.

(** The three top-level fields, and the elements each one feeds. *)
Definition top_fields : list string := ["achievements"; "benefits"; "market_data"].

Definition designated (d : document) (k : string) : list nat :=
  if String.eqb k "achievements" then
    match querySelector d DataAchievements with
    | Some section => option_list (querySelector_in d section Badge)
    | None => []
    end
  else if String.eqb k "benefits" then
    omap (querySelector d) [DataBenefit "cost"; DataBenefit "energy"; DataBenefit "carbon"]
  else if String.eqb k "market_data" then
    omap (querySelector d) [DataMarket "tam"; DataMarket "sam"; DataMarket "som"]
  else [].

(** The payload has the field: reading it gives something defined. *)
Definition present (data : value) (k : string) : Prop :=
  ∃ v, get data k = Some v ∧ v ≠ VUndefined.

(** From [d] to [d'] no element has moved, and every element whose text
    differs satisfies [P]. *)
Definition writes (P : nat → Prop) (d d' : document) : Prop :=
  querySelector d' = querySelector d ∧
  querySelector_in d' = querySelector_in d ∧
  ∀ n, text d' !! n ≠ text d !! n → P n.

(** A page with a badge (node 1 in section 0) and the six figures (nodes
    2 to 7), and host conversions for the examples. *)
Definition sample_page : document :=
  {| text := list_to_map [(1, "Top 100"); (2, "70%"); (3, "90%"); (4, "50%");
                          (5, "$1B"); (6, "$500M"); (7, "$50M")]%nat;
     querySelector := λ sel,
       match sel with
       | DataAchievements => Some 0%nat
       | Badge => Some 1%nat
       | DataBenefit k =>
           if String.eqb k "cost" then Some 2%nat
           else if String.eqb k "energy" then Some 3%nat
           else if String.eqb k "carbon" then Some 4%nat else None
       | DataMarket k =>
           if String.eqb k "tam" then Some 5%nat
           else if String.eqb k "sam" then Some 6%nat
           else if String.eqb k "som" then Some 7%nat else None
       end;
     querySelector_in := λ n sel,
       match n, sel with
       | O, Badge => Some 1%nat
       | _, _ => None
       end |}.

Definition plain_number (v : value) : number := NaN.
Definition plain_text (v : value) : string := "[object Object]".

End Hydration.

(** ** Timeline animation engine: [animations.js] *)

Module Timeline.
Import JS.

(** What the engine does to its surroundings, in order. *)
Inductive effect : Type :=
  | Console_log (message : string)
  | Console_warn (message : string)
  | Gsap (call : string)
  | AddListener (target : string) (type : string).

(** How a piece of script ends: normally, or on the [ReferenceError] of
    naming a global that is not defined. *)
Inductive completion : Type :=
  | Normal
  | ReferenceError (name : string).

Definition run : Type := list effect * completion.

(** Run [r], then [k] unless [r] threw. *)
Definition followed_by (r : run) (k : run) : run :=
  match r with
  | (es, Normal) => (es ++ k.1, k.2)
  | (es, ReferenceError x) => (es, ReferenceError x)
  end.

(** The surroundings: whether the global [gsap] is defined, whether the
    reduced-motion media query matches, whether the document is hidden,
    and the calls that the six animation methods of [setupAnimations]
    make to gsap on this page. *)
Record environment : Type := {
  gsap : bool;
  reduced_motion : bool;
  hidden : bool;
  page_animations : list effect
}.

(** A statement that names [gsap]. *)
Definition use_gsap (env : environment) (call : string) : run :=
  if gsap env then ([Gsap call], Normal) else ([], ReferenceError "gsap").

Definition initGSAP (env : environment) : run :=
  if gsap env then
    ([Gsap "registerPlugin(ScrollTrigger)"; Gsap "defaults(duration: 0.6)";
      Console_log "GSAP animations initialized"], Normal)
  else
    ([Console_warn "GSAP not loaded - falling back to CSS animations"], Normal).

Definition setupAnimations (env : environment) : run :=
  if negb (gsap env) then ([], Normal) else (page_animations env, Normal).

(** [new SquareAnimations()] *)
Definition constructor (env : environment) : run :=
  followed_by (initGSAP env) (setupAnimations env).

Definition setupPerformanceOptimizations (env : environment) : run :=
  ([AddListener "document" "visibilitychange"], Normal).

(** The listener that [setupPerformanceOptimizations] adds. *)
Definition on_visibilitychange (env : environment) : run :=
  if hidden env then use_gsap env "globalTimeline.pause()"
  else use_gsap env "globalTimeline.resume()".

Definition setupAccessibility (env : environment) : run :=
  followed_by
    (if reduced_motion env then
       followed_by (use_gsap env "set(*, duration: 0.01)")
                   ([Gsap "ScrollTrigger.config(limitCallbacks: true)"], Normal)
     else ([], Normal))
    ([AddListener "prefers-reduced-motion" "change"], Normal).

(** The listener that [setupAccessibility] adds. *)
Definition on_motion_change (env : environment) : run :=
  if reduced_motion env then use_gsap env "set(*, duration: 0.01)"
  else use_gsap env "set(*, duration: 0.6)".

(** The [DOMContentLoaded] listener at the end of the script. *)
Definition on_DOMContentLoaded (env : environment) : run :=
  followed_by (constructor env)
    (followed_by (setupPerformanceOptimizations env) (setupAccessibility env)).

(** *** [animateStats] *)

(** The tween that [gsap.fromTo] is asked for: [textContent] from 0 to
    [to_textContent], snapped to integers; [onUpdate], when given, writes
    the text from the value the tween has reached. *)
Record tween : Type := {
  to_textContent : number;
  duration : Q;
  delay : Q;
  onUpdate : option (number → string)
}.

(** The body of [stats.forEach] on a statistic showing [endValue]; [None]
    when it returns without a tween. *)
Definition animateStat (endValue : string) : option tween :=
  if includes "%" endValue then
    let numericValue := parseInt (remove_first "%" endValue) in
    if isNaN numericValue then None
    else Some {| to_textContent := numericValue; duration := 2; delay := 1 # 2;
                 onUpdate := Some (λ v, ToString (Math_round v) +:+ "%") |}
  else if includes "$" endValue then
    let numericPart := keep_digits endValue in
    let numericValue := parseInt numericPart in
    if isNaN numericValue then None
    else Some {| to_textContent := numericValue; duration := 2; delay := 7 # 10;
                 onUpdate := Some (λ v, "$" +:+ ToString (Math_round v) +:+ "M") |}
  else
    let numericValue := parseInt (keep_digits endValue) in
    if isNaN numericValue then None
    else Some {| to_textContent := numericValue; duration := 2; delay := 3 # 10;
                 onUpdate := None |}.

(** The format [animateStat] infers: the tests of its branches, in order. *)
Definition stat_format (endValue : string) : Counter.format :=
  if includes "%" endValue then Counter.Percentage
  else if includes "$" endValue then Counter.CurrencyMillions
  else Counter.PlainInteger.


(** The text of the statistic when the tween is at the integer [v]:
    written by [onUpdate], or else by gsap as the number itself. *)
Definition tween_text (t : tween) (v : number) : string :=
  match onUpdate t with
  | Some write => write v
  | None => ToString v
  end.

End Timeline.

(** ** Counter timing: the [load] listener of [setupCounterAnimations] *)

Module Schedule.
Import JS Counter.

(** The [load] listener sets a timeout of 500 ms that starts every counter,
    and each counter sets an interval of 50 ms: on a host that runs timers
    when they are due, this is the number of interval callbacks a counter
    has run [ms] milliseconds after the load event. *)
Definition callbacks_by (ms : Z) : nat := Z.to_nat ((ms - 500) / 50).

(** The text of a counter [ms] milliseconds after the load event. *)
Definition text_at (ms : Z) (c : counter) : string :=
  default (textContent c) (text <$> last (frames (callbacks_by ms) (startCounter c))).

(** [counters.forEach(counter => startCounter(counter))], seen from the
    page: the texts of all counters [ms] milliseconds after load. *)
Definition setupCounterAnimations (counters : list counter) (ms : Z) : list string :=
  text_at ms <$> counters.

(** A counter with a negative target. *)
Definition minus_five : counter := {| data_target := "-5"; textContent := "0%" |}.

End Schedule.

(** ** Strings of digits *)

Module Digits.
Import JS.


End Digits.

(** ** Navigation: the scroll listener and the state of the toggle *)

Module NavScroll.
Import Nav.

(** [handleScroll] of [setupNavigation], on the class list of the
    navigation bar; [scrollY] is [window.scrollY] when it runs. *)
Definition handleScroll (scrollY : Q) (nav : gset string) : gset string :=
  if JS.gt (JS.Num scrollY) (JS.of_Z 100)
  then classList_add "nav--scrolled" nav
  else classList_remove "nav--scrolled" nav.

(** Whether the toggle button carries its active class. *)
Definition toggle_active (p : page) : bool :=
  bool_decide ("nav__toggle--active" ∈ toggle_classes p).

(** A page whose button is active while its menu is closed. *)
Definition out_of_step : page :=
  {| toggle_classes := {["nav__toggle"; "nav__toggle--active"]};
     aria_expanded := Some "true";
     menu_classes := {["nav__menu"]};
     body_overflow := "hidden" |}.

(** A link element that is no anchor with a URL, and a link left marked
    by an earlier page. *)
Definition bare_link : link :=
  {| pathname := None; classes := {["nav__link"; "nav__link--active"]};
     aria_current := Some "page" |}.
Definition stale_link : link :=
  {| pathname := Some "/about"; classes := {["nav__link"; "nav__link--active"]};
     aria_current := Some "page" |}.

End NavScroll.

(** ** Rate limiting: [throttle] and [debounce] *)

Module Signals.

(** The variable closed over by the function that [throttle] returns, and
    the due times of the timeouts set to reset it. *)
Record throttle : Type := {
  inThrottle : bool;
  resets : list Z
}.

(** [let inThrottle;] *)
Definition idle : throttle := {| inThrottle := false; resets := [] |}.

(** The host runs the reset timeouts that are due at time [t]. *)
Definition fire_resets (t : Z) (s : throttle) : throttle :=
  {| inThrottle := if existsb (λ d, d <=? t)%Z (resets s) then false else inThrottle s;
     resets := List.filter (λ d, negb (d <=? t)%Z) (resets s) |}.

(** A call of the returned function at time [t]: the state after it, and
    whether [func] has been applied. *)
Definition throttled (limit t : Z) (s : throttle) : throttle * bool :=
  if inThrottle s then (s, false)
  else ({| inThrottle := true; resets := resets s ++ [(t + limit)%Z] |}, true).

(** The calls, each with its time and arguments, on a host that runs due
    timeouts before it delivers an event: the calls that reach [func]. *)
Fixpoint run_throttled {A : Type} (limit : Z) (calls : list (Z * A)) (s : throttle)
    : list (Z * A) :=
  match calls with
  | [] => []
  | (t, a) :: rest =>
      let '(s', ran) := throttled limit t (fire_resets t s) in
      (if ran then [(t, a)] else []) ++ run_throttled limit rest s'
  end.

(** The rule that [throttle] implements: a call goes through when none
    has gone through in the [limit] ms before it. *)
Fixpoint spaced {A : Type} (limit : Z) (last : option Z) (calls : list (Z * A))
    : list (Z * A) :=
  match calls with
  | [] => []
  | (t, a) :: rest =>
      if match last with Some l => (l + limit <=? t)%Z | None => true end
      then (t, a) :: spaced limit (Some t) rest
      else spaced limit last rest
  end.

(** [debounce]: the variable [timeout] is the pending timeout, with its due
    time and the arguments that its [later] will pass on. The host runs
    it when it is due. *)
Definition fire_timeout {A : Type} (t : Z) (timeout : option (Z * A))
    : option (Z * A) * list (Z * A) :=
  match timeout with
  | Some (d, a) => if (d <=? t)%Z then (None, [(d, a)]) else (timeout, [])
  | None => (None, [])
  end.

(** A call of the returned function at time [t]:
    [clearTimeout(timeout); timeout = setTimeout(later, wait)]. *)
Definition debounced {A : Type} (wait t : Z) (a : A) (timeout : option (Z * A))
    : option (Z * A) :=
  Some ((t + wait)%Z, a).

(** The calls in order: the applications of [func], each with the time it
    runs at and its arguments, and the timeout left pending. *)
Fixpoint run_debounced {A : Type} (wait : Z) (calls : list (Z * A))
    (timeout : option (Z * A)) : list (Z * A) * option (Z * A) :=
  match calls with
  | [] => ([], timeout)
  | (t, a) :: rest =>
      let '(timeout, ran) := fire_timeout t timeout in
      let '(ran', pending) := run_debounced wait rest (debounced wait t a timeout) in
      (ran ++ ran', pending)
  end.

(** All applications of [func] up to time [until], after the calls. *)
Definition debounce_until {A : Type} (wait : Z) (calls : list (Z * A)) (until : Z)
    : list (Z * A) :=
  let '(ran, pending) := run_debounced wait calls None in
  ran ++ (fire_timeout until pending).2.

(** The rule that [debounce] implements: a call goes through, [wait] ms
    late, when nothing else is called in between. *)
Fixpoint settled {A : Type} (wait : Z) (calls : list (Z * A)) (until : Z)
    : list (Z * A) :=
  match calls with
  | [] => []
  | (t, a) :: rest =>
      let next := match rest with (t', _) :: _ => t' | [] => until end in
      (if (t + wait <=? next)%Z then [((t + wait)%Z, a)] else [])
      ++ settled wait rest until
  end.

End Signals.

(** ** Lazy images: the observer of [setupPerformanceOptimizations] *)

Module LazyImages.
Import Reveal.

(** An image with its [src] and [data-src] attributes, [None] when the
    attribute is missing. *)
Record img : Type := {
  src : option string;
  data_src : option string
}.

(** The images of the page, keyed by node, and the targets that
    [imageObserver] observes. *)
Record imageObserver : Type := {
  images : gmap nat img;
  observing : gset nat
}.

(** [img.src = img.dataset.src; img.removeAttribute('data-src')]: a
    missing attribute reads as [undefined], which [src] takes as text. *)
Definition load (i : img) : img :=
  {| src := Some (default "undefined" (data_src i)); data_src := None |}.

Definition on_entry (o : imageObserver) (en : entry) : imageObserver :=
  if isIntersecting en then
    {| images := alter load (target en) (images o);
       observing := observing o ∖ {[target en]} |}
  else o.

(** The observer callback: [entries.forEach]. *)
Definition callback (entries : list entry) (o : imageObserver) : imageObserver :=
  foldl on_entry o entries.

(** The observer, observing every [img[data-src]]. *)
Definition setupPerformanceOptimizations (page : gmap nat img) : imageObserver :=
  {| images := page;
     observing := dom (filter (λ ni, is_Some (data_src ni.2)) page) |}.

(** The host reports entries of the targets observed when it calls. *)
Definition deliver (o : imageObserver) (entries : list entry) : imageObserver :=
  callback (List.filter (λ en, bool_decide (target en ∈ observing o)) entries) o.

Definition run (o : imageObserver) (batches : list (list entry)) : imageObserver :=
  foldl deliver o batches.

(** How many entries of a batch report node [n] as intersecting, and that
    number for the first batch that has such an entry. *)
Definition reported (n : nat) (entries : list entry) : nat :=
  length (List.filter (λ en, bool_decide (target en = n) && isIntersecting en) entries).

Fixpoint first_reported (n : nat) (batches : list (list entry)) : nat :=
  match batches with
  | [] => 0
  | b :: rest => if (reported n b =? 0)%nat then first_reported n rest else reported n b
  end.

(** A page with a lazy image at node 0 and a plain one at node 1. *)
Definition two_images : gmap nat img :=
  {[ 0%nat := {| src := None; data_src := Some "/images/hero.jpg" |};
     1%nat := {| src := Some "/images/logo.svg"; data_src := None |} ]}.

End LazyImages.

(** ** All notifications of a page *)

Module Tray.
Import Toast.

(** The page is in order: no callback has thrown, every notification
    created so far is on the schedule of some moment not after the clock,
    and the nodes to come are not in use. *)
Definition orderly (h : host) : Prop :=
  uncaught h = [] ∧
  (∀ n, (n < next_node h)%nat → ∃ t0, (t0 ≤ now h)%Z ∧ on_schedule n t0 h) ∧
  (∀ n, (next_node h ≤ n)%nat → unused n h).

End Tray.

(** ** Contact form: the submit listener of [setupContactForm] *)

Module Contact.
Import Nav.

Record button : Type := {
  textContent : string;
  disabled : bool;
  classList : gset string
}.

(** A run of the submit listener suspended at its [await]: the time its
    timeout is due, and the [originalText] it holds. *)
Record handler : Type := {
  due : Z;
  originalText : string
}.

(** A form with [data-contact]: what [querySelector('[type="submit"]')]
    finds in it, the handlers waiting, the calls of [showNotification]
    made so far, each with its time, message and type, the number of
    calls of [form.reset()], and the errors of handlers that threw. *)
Record form : Type := {
  submitButton : option button;
  waiting : list handler;
  shown : list (Z * string * string);
  resets : nat;
  unhandled : list string
}.

(** The listener from its start to the [await], on a submit at time [t].
    Reading [textContent] of a missing button throws before the [try]. *)
Definition on_submit (t : Z) (f : form) : form :=
  match submitButton f with
  | None =>
      {| submitButton := None; waiting := waiting f; shown := shown f;
         resets := resets f; unhandled := unhandled f ++ ["TypeError"] |}
  | Some b =>
      {| submitButton :=
           Some {| textContent := "Sending..."; disabled := true;
                   classList := classList_add "btn--loading" (classList b) |};
         waiting := waiting f ++ [{| due := t + 2000; originalText := textContent b |}];
         shown := shown f; resets := resets f; unhandled := unhandled f |}
  end.

(** The listener after the [await]: the success notification, the reset,
    and the [finally] block. Nothing in the [try] block throws, so the
    [catch] block does not run. *)
Definition resume (f : form) (s : handler) : form :=
  {| submitButton :=
       (λ b, {| textContent := originalText s; disabled := false;
                classList := classList_remove "btn--loading" (classList b) |})
         <$> submitButton f;
     waiting := waiting f;
     shown := shown f ++ [(due s, Toast.sent_message, "success")];
     resets := S (resets f);
     unhandled := unhandled f |}.

(** The host resumes the handlers whose timeout is due at [t], in the
    order they were set: all timeouts are of 2000 ms, so that is the
    order they are due in. *)
Definition run_due (t : Z) (f : form) : form :=
  foldl resume
    {| submitButton := submitButton f;
       waiting := List.filter (λ s, negb (due s <=? t)%Z) (waiting f);
       shown := shown f; resets := resets f; unhandled := unhandled f |}
    (List.filter (λ s, (due s <=? t)%Z) (waiting f)).

(** The submit events at the given times, in order, each after the
    timeouts due by then. *)
Fixpoint run (times : list Z) (f : form) : form :=
  match times with
  | [] => f
  | t :: rest => run rest (on_submit t (run_due t f))
  end.

(** The form at time [until], after the submit events. *)
Definition settle (times : list Z) (until : Z) (f : form) : form :=
  run_due until (run times f).

(** The form as the page loads. *)
Definition form_with (b : option button) : form :=
  {| submitButton := b; waiting := []; shown := []; resets := 0; unhandled := [] |}.

Definition note (t : Z) : Z * string * string :=
  ((t + 2000)%Z, Toast.sent_message, "success").

Definition send_button : button :=
  {| textContent := "Send message"; disabled := false; classList := {["btn"]} |}.

(** The form with one handler waiting, set at [last]. *)
Definition pending (f : form) (last : Z) (T : string) (cl : gset string)
    (sh : list (Z * string * string)) (r : nat) : Prop :=
  ∃ b, submitButton f = Some b ∧ textContent b = "Sending..." ∧ disabled b = true ∧
       (∀ c, c ∈ classList b ↔ c = "btn--loading" ∨ c ∈ cl) ∧
       waiting f = [{| due := last + 2000; originalText := T |}] ∧
       shown f = sh ∧ resets f = r ∧ unhandled f = [].

(** The form with no handler waiting. *)
Definition resting (f : form) (T : string) (cl : gset string)
    (sh : list (Z * string * string)) (r : nat) : Prop :=
  ∃ b, submitButton f = Some b ∧ textContent b = T ∧ disabled b = false ∧
       (∀ c, c ∈ classList b ↔ c ≠ "btn--loading" ∧ c ∈ cl) ∧
       waiting f = [] ∧ shown f = sh ∧ resets f = r ∧ unhandled f = [].

End Contact.

(** ** Parallax: the scroll listener of [setupScrollEffects] *)

Module Parallax.
Import JS.

(** [a < b] *)
Definition lt (a b : number) : bool := gt b a.

(** [handleParallax], on the offset of [translateY] in the transform of
    the hero, in pixels, [None] while the style is unset; [scrolled] is
    [window.scrollY] and [heroHeight] is [hero.offsetHeight] when it runs. *)
Definition handleParallax (scrolled heroHeight : Q) (transform : option number)
    : option number :=
  let rate := mul (Num scrolled) (Num (- (1 # 2))) in
  if lt (Num scrolled) (Num heroHeight) then Some rate else transform.

(** A scroll event that finds the page above the end of the hero. *)
Definition over_hero (e : Z * (Q * Q)) : bool := lt (Num e.2.1) (Num e.2.2).

End Parallax.

(** * Properties *)

(** ** Strings and numbers *)

Module JSFacts.
Import JS.

Lemma prefix_empty (s : string) : String.prefix "" s = true.
Proof. by destruct s. Qed.

Lemma includes_char (c : ascii) (s : string) :
  includes (String c "") s = has_char c s.
Proof.
  induction s as [|d r IH]; [done|].
  cbn [includes has_char String.prefix]. rewrite IH, prefix_empty.
  destruct (ascii_dec c d) as [->|Hne].
  - by rewrite Ascii.eqb_refl.
  - apply Ascii.eqb_neq in Hne. by rewrite Hne.
Qed.

Lemma has_char_app (c : ascii) (s t : string) :
  has_char c (s +:+ t) = has_char c s || has_char c t.
Proof.
  induction s as [|d r IH]; [done|].
  simpl. by rewrite IH, orb_assoc.
Qed.

Lemma string_of_uint_chars (c : ascii) (d : Decimal.uint) :
  numeric_char c = false → has_char c (NilEmpty.string_of_uint d) = false.
Proof.
  intros Hc. unfold numeric_char in Hc. cbn [has_char] in Hc.
  repeat (apply orb_false_elim in Hc as [? Hc]).
  induction d; cbn [NilEmpty.string_of_uint has_char]; rewrite ?IHd; auto;
    by match goal with H : _ = false |- _ => rewrite H end.
Qed.

Lemma Z_to_string_chars (c : ascii) (z : Z) :
  numeric_char c = false → has_char c (Z_to_string z) = false.
Proof.
  intros Hc. unfold Z_to_string, NilZero.string_of_int, NilZero.string_of_uint.
  assert (Hm : Ascii.eqb c "-" = false).
  { unfold numeric_char in Hc. cbn [has_char] in Hc.
    by apply orb_false_elim in Hc as [? _]. }
  assert (H0 : Ascii.eqb c "0" = false).
  { unfold numeric_char in Hc. cbn [has_char] in Hc.
    apply orb_false_elim in Hc as [_ Hc]. by apply orb_false_elim in Hc as [? _]. }
  destruct (Z.to_int z) as [d|d]; cbn [has_char]; rewrite ?Hm;
    (destruct d eqn:Hd; [cbn [has_char]; by rewrite H0 | rewrite <- Hd ..]);
    by apply string_of_uint_chars.
Qed.

Lemma ToString_floor_chars (c : ascii) (x : number) :
  numeric_char c = false → has_char c "NaN" = false →
  has_char c (ToString (Math_floor x)) = false.
Proof.
  intros Hc Hn. destruct x as [|q]; [done|]. by apply Z_to_string_chars.
Qed.

Lemma Qfloor_inject_Z (z : Z) : Qfloor (inject_Z z) = z.
Proof. unfold Qfloor, inject_Z. apply Z.div_1_r. Qed.

Lemma Math_floor_of_Z (z : Z) : Math_floor (of_Z z) = of_Z z.
Proof. unfold Math_floor, of_Z. by rewrite Qfloor_inject_Z. Qed.



Lemma div_by_60 (z : Z) :
  div (of_Z z) (of_Z 60) = Num (inject_Z z / inject_Z 60).
Proof. reflexivity. Qed.

Lemma ge_true (x y : Q) : ge (Num x) (Num y) = true ↔ (y <= x)%Q.
Proof. unfold ge. apply Qle_bool_iff. Qed.

Lemma ge_false (x y : Q) : ge (Num x) (Num y) = false ↔ ¬ (y <= x)%Q.
Proof. rewrite <- ge_true. by destruct (ge (Num x) (Num y)). Qed.

End JSFacts.

(** ** Counter animator *)

Module CounterFacts.
Import JS JSFacts Counter.

Lemma render_show (t : string) (cur : number) :
  render t cur = show (format_of t) (Math_floor cur).
Proof. unfold render, format_of. by repeat case_match. Qed.

(** What [render] writes is read back as the same format on the next run. *)
Lemma format_of_show (f : format) (x : number) :
  format_of (show f (Math_floor x)) = f.
Proof.
  unfold format_of. rewrite !includes_char.
  destruct f; cbn [show]; rewrite ?has_char_app, ?ToString_floor_chars; done.
Qed.

Lemma text_tick (a : animation) :
  text (tick a) = show (format_of (text a)) (displayed (tick a)).
Proof. unfold text, displayed, tick. cbn. apply render_show. Qed.

Lemma format_of_tick (a : animation) :
  format_of (text (tick a)) = format_of (text a).
Proof. rewrite text_tick. apply format_of_show. Qed.

(** The clamp of the callback, whatever [current] and [increment] hold: a
    run that clears the interval leaves [current] at the target itself. *)
Lemma tick_clamps (a : animation) :
  timer (tick a) = false → current (tick a) = target a.
Proof.
  unfold tick. cbn. by destruct (ge (add (current a) (increment a)) (target a)).
Qed.

Lemma frames_cleared (m : nat) (a : animation) :
  timer a = false → frames m a = [].
Proof. intros H. destruct m; [done|]. cbn. by rewrite H. Qed.

Section Run.
Variables (n : Z) (f : format).
Hypothesis Hn : (0 < n)%Z.





End Run.



(** The run does not depend on the increment being the exact sixtieth of
    the target: with any positive increment [i], from any [c] at or below
    the target [t], the values never decrease nor pass [t], and once [m]
    increments cover the distance the interval has been cleared on a frame
    that holds [t] itself. *)
Lemma frames_any_increment (t i : Q) (m : nat) (a : animation) (c : Q) :
  target a = Num t → increment a = Num i → current a = Num c → timer a = true →
  (0 < i)%Q → (c <= t)%Q → (t - c <= inject_Z (Z.of_nat m) * i)%Q → (1 ≤ m)%nat →
  ascending c t (frames m a) ∧
  (∃ b, last (frames m a) = Some b ∧ timer b = false ∧ current b = Num t) ∧
  ∀ e, frames (m + e) a = frames m a.
Proof.
  revert a c. induction m as [|m IH]; intros a c Ht Hi Hc Htm Hpos Hle Hm Hone; [lia|].
  cbn [Nat.add frames]. rewrite Htm.
  assert (Hadd : add (current a) (increment a) = Num (c + i)) by (by rewrite Hc, Hi).
  destruct (ge (Num (c + i)) (Num t)) eqn:Hge.
  - assert (Hcur : current (tick a) = Num t).
    { unfold tick. cbn [current]. by rewrite Hadd, Ht, Hge. }
    assert (Hoff : timer (tick a) = false).
    { unfold tick. cbn [timer]. by rewrite Hadd, Ht, Hge. }
    rewrite !frames_cleared by done. split; [|split].
    + cbn [ascending]. exists t.
      split; [done|]. split; [done|]. split; [lra|done].
    + by exists (tick a).
    + intros e. by rewrite frames_cleared.
  - apply ge_false in Hge.
    assert (Hcur : current (tick a) = Num (c + i)).
    { unfold tick. cbn [current]. rewrite Hadd, Ht.
      by destruct (ge (Num (c + i)) (Num t)) eqn:E; [apply ge_true in E|]. }
    assert (Hon : timer (tick a) = true).
    { unfold tick. cbn [timer]. rewrite Hadd, Ht.
      by destruct (ge (Num (c + i)) (Num t)) eqn:E; [apply ge_true in E|]. }
    assert (Hstep : inject_Z (Z.of_nat (S m)) == inject_Z (Z.of_nat m) + 1).
    { rewrite Nat2Z.inj_succ. unfold Z.succ. by rewrite inject_Z_plus. }
    rewrite Hstep in Hm.
    assert (Hm1 : (1 ≤ m)%nat).
    { destruct m; [|lia]. exfalso. apply Hge.
      change (inject_Z (Z.of_nat 0)) with 0%Q in Hm. lra. }
    destruct (IH (tick a) (c + i)%Q) as (Hasc & (b & Hb & Hbt & Hbc) & Hstable);
      try done; [lra | nra |].
    split; [|split].
    + cbn [ascending]. exists (c + i)%Q.
      split; [done|]. split; [lra|]. split; [lra|done].
    + exists b. split; [|done]. rewrite last_cons, Hb. done.
    + intros e. by rewrite Hstable.
Qed.







(** The example of the specification, run on the code: 70 in percentage
    format starts on 1%, shows 68% on its 59th frame and ends on 70%. *)
Example counter_70_percent :
  let fs := frames 100 (startCounter percent_70) in
  length fs = 60%nat ∧ text <$> last fs = Some "70%" ∧
  text <$> fs !! 58%nat = Some "68%" ∧ text <$> head fs = Some "1%".
Proof. vm_compute. done. Qed.

(** *** A target that does not parse *)

Lemma ge_NaN_r (x : number) : ge x NaN = false.
Proof. by destruct x. Qed.

Lemma add_NaN_r (x : number) : add x NaN = NaN.
Proof. by destruct x. Qed.

(** With a NaN target the comparison of the callback never holds: the
    interval is never cleared and every run writes NaN in the format found. *)
Lemma frames_NaN (f : format) (k : nat) (a : animation) :
  target a = NaN → increment a = NaN → timer a = true → format_of (text a) = f →
  length (frames k a) = k ∧
  ∀ b, b ∈ frames k a → timer b = true ∧ text b = show f NaN.
Proof.
  revert a. induction k as [|k IH]; intros a Ht Hi Htm Hf.
  { split; [done|]. by intros b ?%elem_of_nil. }
  cbn [frames]. rewrite Htm.
  assert (Htick : timer (tick a) = true ∧ text (tick a) = show f NaN).
  { rewrite text_tick, Hf. unfold displayed, tick. cbn [timer current].
    by rewrite Ht, Hi, ge_NaN_r, add_NaN_r. }
  destruct (IH (tick a)) as [Hlen Hall]; [done | done | apply Htick | |].
  { by rewrite format_of_tick. }
  split; [cbn; by rewrite Hlen|].
  intros b [->|Hb]%elem_of_cons; [done|]. by apply Hall.
Qed.

(** C2. On the code, a counter whose data-target does not parse is not
    skipped: for data-target abc on the text 70%, every run of the callback
    writes NaN% over the text, and the interval is never cleared. *)
Theorem C2_unparseable_target_overwrites_text :
  parseInt (data_target unparseable) = NaN ∧
  text (startCounter unparseable) = "70%" ∧
  text (tick (startCounter unparseable)) = "NaN%" ∧
  ∀ k : nat,
    length (frames k (startCounter unparseable)) = k ∧
    ∀ b, b ∈ frames k (startCounter unparseable) →
         timer b = true ∧ text b = "NaN%".
Proof.
  split; [done|]. split; [done|]. split; [done|]. intros k.
  by apply (frames_NaN Percentage).
Qed.

(** *** Format inference *)







(** The two inferences on the texts that tell them apart. *)
Example formats_on_currency_texts :
  format_of "5M" = CurrencyMillions ∧ Timeline.stat_format "5M" = PlainInteger ∧
  format_of "$5" = PlainInteger ∧ Timeline.stat_format "$5" = CurrencyMillions ∧
  format_of "$500M" = CurrencyMillions ∧ Timeline.stat_format "$500M" = CurrencyMillions ∧
  (λ t, Timeline.tween_text t (of_Z 12)) <$> Timeline.animateStat "$5" = Some "$12M".
Proof. vm_compute. done. Qed.

End CounterFacts.

(** ** Navigation controller *)

Module NavFacts.
Import Nav.

Lemma toggle_absent (c : string) (cl : gset string) :
  c ∉ cl → classList_toggle c cl = (true, {[c]} ∪ cl).
Proof. intros H. unfold classList_toggle. by rewrite decide_False. Qed.

Lemma toggle_present (c : string) (cl : gset string) :
  c ∈ cl → classList_toggle c cl = (false, cl ∖ {[c]}).
Proof. intros H. unfold classList_toggle. by rewrite decide_True. Qed.

(** The first click on a closed menu: open, scroll locked, expanded. *)
Lemma toggle_click_opens (p : page) :
  "nav__toggle--active" ∉ toggle_classes p → "nav__menu--open" ∉ menu_classes p →
  toggle_click p =
    {| toggle_classes := {["nav__toggle--active"]} ∪ toggle_classes p;
       aria_expanded := Some "true";
       menu_classes := {["nav__menu--open"]} ∪ menu_classes p;
       body_overflow := "hidden" |}.
Proof. intros Ht Hm. unfold toggle_click. by rewrite !toggle_absent. Qed.

Lemma toggle_click_closes (p : page) :
  "nav__toggle--active" ∈ toggle_classes p → "nav__menu--open" ∈ menu_classes p →
  toggle_click p =
    {| toggle_classes := toggle_classes p ∖ {["nav__toggle--active"]};
       aria_expanded := Some "false";
       menu_classes := menu_classes p ∖ {["nav__menu--open"]};
       body_overflow := "" |}.
Proof. intros Ht Hm. unfold toggle_click. by rewrite !toggle_present. Qed.

(** A click on a link of the mobile menu closes it, whatever it was. *)
Lemma link_click_closes (p : page) :
  menuOpen (link_click p) = false ∧
  scroll_locked (link_click p) = false ∧
  aria_expanded (link_click p) = Some "false".
Proof.
  unfold menuOpen, scroll_locked, link_click, classList_remove. cbn.
  split; [|done]. apply bool_decide_eq_false_2. set_solver.
Qed.

(** C6. From a closed menu, two clicks on the toggle (open, then close) end
    with the menu closed, the scroll lock cleared and aria-expanded set to
    false, the class lists being those of the start; in between the menu is
    open, scroll is locked and aria-expanded is true. *)
Theorem C6_toggle_round_trip (p : page) :
  "nav__toggle--active" ∉ toggle_classes p → "nav__menu--open" ∉ menu_classes p →
  (menuOpen (toggle_click p) = true ∧
   scroll_locked (toggle_click p) = true ∧
   aria_expanded (toggle_click p) = Some "true") ∧
  toggle_click (toggle_click p) =
    {| toggle_classes := toggle_classes p;
       aria_expanded := Some "false";
       menu_classes := menu_classes p;
       body_overflow := "" |} ∧
  menuOpen (toggle_click (toggle_click p)) = false ∧
  scroll_locked (toggle_click (toggle_click p)) = false ∧
  aria_expanded (toggle_click (toggle_click p)) = Some "false".
Proof.
  intros Ht Hm. rewrite (toggle_click_opens p Ht Hm).
  split.
  { unfold menuOpen, scroll_locked. cbn.
    split; [|done]. apply bool_decide_eq_true. set_solver. }
  rewrite toggle_click_closes by (cbn; set_solver). cbn.
  assert (Htc : ({["nav__toggle--active"]} ∪ toggle_classes p) ∖ {["nav__toggle--active"]}
                = toggle_classes p) by set_solver.
  assert (Hmc : ({["nav__menu--open"]} ∪ menu_classes p) ∖ {["nav__menu--open"]}
                = menu_classes p) by set_solver.
  rewrite Htc, Hmc. split; [done|].
  unfold menuOpen, scroll_locked. cbn. split; [|done].
  by apply bool_decide_eq_false.
Qed.

Lemma C6_witness :
  ("nav__toggle--active" ∉ toggle_classes closed_page) ∧
  ("nav__menu--open" ∉ menu_classes closed_page) ∧
  toggle_click (toggle_click closed_page) = closed_page ∧
  menuOpen (toggle_click (toggle_click closed_page)) = false ∧
  scroll_locked (toggle_click (toggle_click closed_page)) = false ∧
  aria_expanded (toggle_click (toggle_click closed_page)) = Some "false".
Proof.
  assert (Ht : "nav__toggle--active" ∉ toggle_classes closed_page) by compute_done.
  assert (Hm : "nav__menu--open" ∉ menu_classes closed_page) by compute_done.
  split; [exact Ht|]. split; [exact Hm|].
  exact (proj2 (C6_toggle_round_trip closed_page Ht Hm)).
Defined.

(** *** Active link *)

Lemma path_test (linkPath currentPath : string) :
  String.eqb linkPath currentPath ||
    (String.eqb currentPath "/" && String.eqb linkPath "/")
  = bool_decide (linkPath = currentPath).
Proof.
  destruct (String.eqb_spec linkPath currentPath) as [->|Hne].
  - by rewrite bool_decide_eq_true_2.
  - rewrite bool_decide_eq_false_2 by done. cbn.
    destruct (String.eqb_spec currentPath "/") as [->|?]; [|done].
    destruct (String.eqb_spec linkPath "/") as [->|?]; done.
Qed.

(** One link with a URL: the loop body runs to its end, and the link is
    marked exactly when its path is the current one. *)
Lemma update_link_spec (currentPath : string) (l : link) :
  is_Some (pathname l) →
  ∃ l', update_link currentPath l = (l', true) ∧
        pathname l' = pathname l ∧
        active l' = matches currentPath l ∧
        current_page l' = matches currentPath l ∧
        aria_current l' = (if matches currentPath l then Some "page" else None) ∧
        classes l' ∖ {["nav__link--active"]} = classes l ∖ {["nav__link--active"]}.
Proof.
  destruct l as [[lp|] cl ac]; intros [? Hlp]; [clear Hlp|done].
  unfold update_link, matches. cbn [pathname classes]. rewrite path_test.
  destruct (decide (lp = currentPath)) as [->|Hne].
  - rewrite !bool_decide_eq_true_2 by done.
    eexists. split; [done|]. unfold active, current_page, classList_add, classList_remove.
    cbn. repeat split; [|set_solver].
    apply bool_decide_eq_true_2. set_solver.
  - rewrite (bool_decide_eq_false_2 (lp = _)) by done.
    rewrite (bool_decide_eq_false_2 (Some lp = _)) by congruence.
    eexists. split; [done|]. unfold active, current_page, classList_remove.
    cbn. repeat split; [|set_solver].
    apply bool_decide_eq_false_2. set_solver.
Qed.

Lemma updateActiveNavigation_spec (currentPath : string) (navLinks : list link) :
  Forall (λ l, is_Some (pathname l)) navLinks →
  updateActiveNavigation currentPath navLinks =
    ((λ l, (update_link currentPath l).1) <$> navLinks, true).
Proof.
  induction 1 as [|l rest Hl _ IH]; [done|].
  cbn [updateActiveNavigation fmap list_fmap].
  destruct (update_link_spec currentPath l Hl) as (l' & -> & _).
  by rewrite IH.
Qed.





End NavFacts.

(** ** Scroll-reveal engine *)

Module RevealFacts.
Import JS Reveal.

Lemma revealed_reveal (e : element) :
  bool_decide ("scroll-reveal--visible" ∈ classes (reveal e)) = true.
Proof. apply bool_decide_eq_true_2. unfold reveal. cbn. set_solver. Qed.

Lemma on_entry_dom (els : gmap nat element) (en : entry) :
  dom (on_entry els en) = dom els.
Proof.
  unfold on_entry. destruct (isIntersecting en); [|done].
  apply set_eq. intros k. rewrite !elem_of_dom, lookup_alter.
  case_decide; [|done]. subst. by rewrite fmap_is_Some.
Qed.

(** One entry: the flag of [n] is set when the entry is for [n] and
    intersecting, and is otherwise what it was. *)
Lemma on_entry_revealed (els : gmap nat element) (en : entry) (n : nat) :
  n ∈ dom els →
  revealed_in (on_entry els en) n =
  revealed_in els n || (bool_decide (target en = n) && isIntersecting en).
Proof.
  intros [e He]%elem_of_dom. unfold on_entry, revealed_in.
  destruct (isIntersecting en); [|by rewrite andb_false_r, orb_false_r].
  rewrite lookup_alter, He. case_decide as Hn.
  - subst. rewrite (bool_decide_eq_true_2 (target en = target en)) by done.
    rewrite He. change (reveal <$> Some e) with (Some (reveal e)). cbv beta iota.
    by rewrite revealed_reveal, orb_true_r.
  - rewrite (bool_decide_eq_false_2 (target en = n)) by done. by rewrite orb_false_r.
Qed.

Lemma foldl_on_entry_dom (entries : list entry) (els : gmap nat element) :
  dom (foldl on_entry els entries) = dom els.
Proof.
  revert els. induction entries as [|en entries IH]; intros els; [done|].
  cbn. by rewrite IH, on_entry_dom.
Qed.

Lemma foldl_on_entry_revealed (entries : list entry) (els : gmap nat element) (n : nat) :
  n ∈ dom els →
  revealed_in (foldl on_entry els entries) n = revealed_in els n || reports n entries.
Proof.
  revert els. induction entries as [|en entries IH]; intros els Hn; cbn.
  { by rewrite orb_false_r. }
  rewrite IH by (by rewrite on_entry_dom).
  by rewrite on_entry_revealed, orb_assoc.
Qed.

Lemma reports_filter (g : engine) (n : nat) (entries : list entry) :
  n ∈ observed g →
  reports n (List.filter (λ en, bool_decide (target en ∈ observed g)) entries)
  = reports n entries.
Proof.
  intros Hn. unfold reports. induction entries as [|en entries IH]; [done|].
  cbn [List.filter]. destruct (decide (target en ∈ observed g)) as [Hin|Hout].
  - rewrite (bool_decide_eq_true_2 (target en ∈ _)) by done.
    cbn [existsb]. by rewrite IH.
  - rewrite (bool_decide_eq_false_2 (target en ∈ _)) by done.
    cbn [existsb]. rewrite IH.
    rewrite (bool_decide_eq_false_2 (target en = n)); [done|].
    intros Heq. apply Hout. by rewrite Heq.
Qed.

Lemma deliver_observed (g : engine) (entries : list entry) :
  observed (deliver g entries) = observed g ∧ options (deliver g entries) = options g ∧
  dom (elements (deliver g entries)) = dom (elements g).
Proof. unfold deliver, callback. cbn. by rewrite foldl_on_entry_dom. Qed.

Lemma deliver_revealed (g : engine) (entries : list entry) (n : nat) :
  n ∈ observed g → n ∈ dom (elements g) →
  revealed (deliver g entries) n = revealed g n || reports n entries.
Proof.
  intros Ho Hd. unfold revealed, deliver, callback. cbn.
  by rewrite foldl_on_entry_revealed, reports_filter.
Qed.

Lemma run_invariant (batches : list (list entry)) (g : engine) :
  observed (run g batches) = observed g ∧ options (run g batches) = options g ∧
  dom (elements (run g batches)) = dom (elements g).
Proof.
  revert g. induction batches as [|b batches IH]; intros g; [done|].
  change (run g (b :: batches)) with (run (deliver g b) batches).
  destruct (IH (deliver g b)) as (-> & -> & ->). apply deliver_observed.
Qed.

Lemma run_revealed (batches : list (list entry)) (g : engine) (n : nat) :
  n ∈ observed g → n ∈ dom (elements g) →
  revealed (run g batches) n = revealed g n || existsb (reports n) batches.
Proof.
  revert g. induction batches as [|b batches IH]; intros g Ho Hd.
  { cbn. by rewrite orb_false_r. }
  change (run g (b :: batches)) with (run (deliver g b) batches). cbn [existsb].
  destruct (deliver_observed g b) as (Ho' & _ & Hd').
  rewrite IH by (by rewrite ?Ho', ?Hd').
  by rewrite deliver_revealed, orb_assoc.
Qed.

Lemma run_app (g : engine) (b1 b2 : list (list entry)) :
  run g (b1 ++ b2) = run (run g b1) b2.
Proof. apply foldl_app. Qed.

Lemma setup_observed_dom (page : gmap nat element) (n : nat) :
  n ∈ observed (setupScrollReveal page) →
  n ∈ dom (elements (setupScrollReveal page)).
Proof.
  unfold setupScrollReveal. cbn. intros Hn.
  apply elem_of_dom in Hn as [e He]. apply map_lookup_filter_Some in He as [He _].
  apply elem_of_dom. by exists e.
Qed.

(** C5, as stated, fails on the code in its last part: once the target at
    node 0 has been revealed, the observer still observes it. *)
Lemma C5_counterexample :
  revealed (setupScrollReveal one_target) 0 = false ∧
  revealed (deliver (setupScrollReveal one_target)
              [{| target := 0; isIntersecting := true |}]) 0 = true ∧
  0%nat ∈ observed (deliver (setupScrollReveal one_target)
                      [{| target := 0; isIntersecting := true |}]).
Proof. split; [done|]. split; [done|]. compute_done. Qed.

(** C5, amended. The observer is created with threshold 0.1 and a bottom
    root margin of -50px. For a target it observes, the revealed flag after
    any batches of entries is set exactly when it was set before or one of
    them reported the target as intersecting; once set it stays set
    whatever further entries arrive, so it goes from false to true at most
    once and never back. The set of observed targets never changes: a
    revealed target remains observed. *)
Theorem C5_reveal_once_and_for_all
    (page : gmap nat element) (batches more : list (list entry)) (n : nat) :
  n ∈ observed (setupScrollReveal page) →
  options (run (setupScrollReveal page) batches) =
    {| threshold := 1 # 10; rootMargin := "0px 0px -50px 0px" |} ∧
  revealed (run (setupScrollReveal page) batches) n =
    revealed (setupScrollReveal page) n || existsb (reports n) batches ∧
  (revealed (run (setupScrollReveal page) batches) n = true →
   revealed (run (setupScrollReveal page) (batches ++ more)) n = true) ∧
  observed (run (setupScrollReveal page) batches) = observed (setupScrollReveal page).
Proof.
  intros Hn. pose proof (setup_observed_dom page n Hn) as Hd.
  destruct (run_invariant batches (setupScrollReveal page)) as (Ho & Hopt & Hdom).
  split; [by rewrite Hopt|]. split; [by apply run_revealed|]. split; [|done].
  intros Hr. rewrite run_app, run_revealed, Hr; [done | by rewrite Ho | by rewrite Hdom].
Qed.

Lemma C5_witness :
  0%nat ∈ observed (setupScrollReveal one_target) ∧
  revealed (run (setupScrollReveal one_target)
              [[{| target := 0; isIntersecting := false |}];
               [{| target := 0; isIntersecting := true |}];
               [{| target := 0; isIntersecting := false |}]]) 0 = true ∧
  observed (run (setupScrollReveal one_target)
              [[{| target := 0; isIntersecting := false |}];
               [{| target := 0; isIntersecting := true |}];
               [{| target := 0; isIntersecting := false |}]])
    = observed (setupScrollReveal one_target).
Proof.
  assert (H : 0%nat ∈ observed (setupScrollReveal one_target)) by compute_done.
  split; [exact H|].
  destruct (C5_reveal_once_and_for_all one_target
              [[{| target := 0; isIntersecting := false |}];
               [{| target := 0; isIntersecting := true |}];
               [{| target := 0; isIntersecting := false |}]] [] 0%nat H)
    as (_ & Hr & _ & Ho).
  split; [|exact Ho]. rewrite Hr. reflexivity.
Defined.

End RevealFacts.

(** ** Notifications *)

Module ToastFacts.
Import Toast.

(** *** The timer queue *)

Lemma pick_None (ts : list timer) : pick ts = None → ts = [].
Proof.
  destruct ts as [|t rest]; [done|]. cbn.
  destruct (pick rest) as [[t' rest']|]; [|done]. by case_match.
Qed.

Lemma pick_elem (ts : list timer) (t : timer) (rest : list timer) :
  pick ts = Some (t, rest) → ∀ u, u ∈ ts ↔ u = t ∨ u ∈ rest.
Proof.
  revert t rest. induction ts as [|x xs IH]; intros t rest; [done|]. cbn.
  destruct (pick xs) as [[t' rest']|] eqn:Hp.
  - specialize (IH t' rest' eq_refl).
    case_match; intros [= <- <-] u; rewrite !elem_of_cons; [done|].
    rewrite IH. tauto.
  - apply pick_None in Hp as ->. intros [= <- <-] u. by rewrite !elem_of_cons.
Qed.

Lemma pick_min (ts : list timer) (t : timer) (rest : list timer) :
  pick ts = Some (t, rest) → ∀ u, u ∈ ts → (due t ≤ due u)%Z.
Proof.
  revert t rest. induction ts as [|x xs IH]; intros t rest; [done|]. cbn.
  destruct (pick xs) as [[t' rest']|] eqn:Hp.
  - specialize (IH t' rest' eq_refl).
    case_match eqn:Hle; intros [= <- <-] u [->|Hu]%elem_of_cons; try lia.
    + apply IH in Hu. lia.
    + by apply IH.
  - apply pick_None in Hp as ->.
    intros [= <- <-] u [->|Hu]%elem_of_cons; [lia|]. by apply elem_of_nil in Hu.
Qed.

Lemma pick_rounds (ts : list timer) (t : timer) (rest : list timer) :
  pick ts = Some (t, rest) → rounds ts = (weight t + rounds rest)%nat.
Proof.
  revert t rest. induction ts as [|x xs IH]; intros t rest; [done|]. cbn.
  destruct (pick xs) as [[t' rest']|] eqn:Hp.
  - specialize (IH t' rest' eq_refl). unfold rounds in *. cbn.
    case_match; intros [= <- <-]; cbn; lia.
  - apply pick_None in Hp as ->. by intros [= <- <-].
Qed.

(** Firing the timer of another notification leaves the timers of [n]. *)
Lemma pick_other (n : nat) (ts : list timer) (t : timer) (rest : list timer) :
  pick ts = Some (t, rest) → node_of (action t) ≠ n →
  timers_of n rest = timers_of n ts.
Proof.
  unfold timers_of.
  revert t rest. induction ts as [|x xs IH]; intros t rest; [done|]. cbn [pick].
  destruct (pick xs) as [[t' rest']|] eqn:Hp.
  - specialize (IH t' rest' eq_refl).
    case_match; intros [= <- <-] Hn.
    + by rewrite (filter_cons_False _ x).
    + rewrite !(filter_cons _ x). by rewrite IH.
  - apply pick_None in Hp as ->. intros [= <- <-] Hn.
    by rewrite (filter_cons_False _ x).
Qed.

(** Firing the one timer of [n] leaves none of its timers. *)
Lemma pick_own (n : nat) (ts : list timer) (t u : timer) (rest : list timer) :
  pick ts = Some (t, rest) → node_of (action t) = n →
  timers_of n ts = [u] → u = t ∧ timers_of n rest = [].
Proof.
  unfold timers_of.
  revert t rest. induction ts as [|x xs IH]; intros t rest; [done|]. cbn [pick].
  destruct (pick xs) as [[t' rest']|] eqn:Hp.
  - case_match; intros [= <- <-] Hn.
    + rewrite (filter_cons_True _ x) by done. by intros [= -> ->].
    + assert (Hin : t' ∈ filter (λ t, node_of (action t) = n) xs).
      { apply list_elem_of_filter. split; [done|].
        apply (pick_elem _ _ _ Hp). by left. }
      rewrite !(filter_cons _ x). destruct (decide (node_of (action x) = n)).
      * intros [= -> Hnil]. rewrite Hnil in Hin. by apply elem_of_nil in Hin.
      * by apply IH.
  - apply pick_None in Hp as ->. intros [= <- <-] Hn.
    rewrite (filter_cons_True _ x) by done. by intros [= ->].
Qed.

Lemma timers_of_snoc_other (n : nat) (ts : list timer) (t : timer) :
  node_of (action t) ≠ n → timers_of n (ts ++ [t]) = timers_of n ts.
Proof.
  intros Hn. unfold timers_of. rewrite filter_app, (filter_cons_False _ t) by done.
  by rewrite filter_nil, app_nil_r.
Qed.

Lemma timers_of_snoc_own (n : nat) (ts : list timer) (t : timer) :
  node_of (action t) = n → timers_of n (ts ++ [t]) = timers_of n ts ++ [t].
Proof.
  intros Hn. unfold timers_of. rewrite filter_app, (filter_cons_True _ t) by done.
  by rewrite filter_nil.
Qed.

Lemma timers_of_elem (n : nat) (ts : list timer) (t : timer) :
  timers_of n ts = [t] → t ∈ ts ∧ node_of (action t) = n.
Proof.
  intros H. assert (Hin : t ∈ timers_of n ts) by (rewrite H; by left).
  apply list_elem_of_filter in Hin. tauto.
Qed.

Lemma run_callback_next_node (cb : callback) (h : host) :
  next_node (run_callback cb h) = next_node h.
Proof.
  destruct cb; [done|]. unfold run_callback, removeChild. by case_bool_decide.
Qed.

Lemma run_callback_now (cb : callback) (h : host) :
  now (run_callback cb h) = now h.
Proof.
  destruct cb; [done|]. unfold run_callback, removeChild. by case_bool_decide.
Qed.

(** Each round uses up some of the bound. *)
Lemma run_callback_rounds (t : timer) (c : Z) (rest : list timer) (h : host) :
  (rounds (timers (run_callback (action t) (set_clock c rest h)))
   < weight t + rounds rest)%nat.
Proof.
  unfold weight. destruct (action t) as [m|m].
  - unfold run_callback, setTimeout, rounds. cbn [timers set_clock].
    rewrite sum_list_with_app. cbn. lia.
  - unfold run_callback, removeChild. case_bool_decide; cbn [timers set_clock]; lia.
Qed.

(** *** One notification among the others *)

Section Schedule.
Variables (n : nat) (t0 : Z).

Lemma in_phase_ext (ph : phase) (h h' : host) :
  (n ∈ body h' ↔ n ∈ body h) →
  animation_of n h' = animation_of n h →
  timers_of n (timers h') = timers_of n (timers h) →
  in_phase n t0 ph h → in_phase n t0 ph h'.
Proof.
  intros Hb Ha Ht. destruct ph; cbn; rewrite ?Hb, ?Ha, ?Ht; done.
Qed.

(** The timer fired next is due no later than the pending timer of [n]. *)
Lemma pending_bound (ph : phase) (h : host) (t : timer) (rest : list timer) :
  in_phase n t0 ph h → pick (timers h) = Some (t, rest) →
  match ph with
  | Entering => (due t ≤ t0 + 5000)%Z
  | Leaving => (due t ≤ t0 + 5300)%Z
  | Gone => True
  end.
Proof.
  intros Hph Hp. destruct ph; [| |done]; destruct Hph as (_ & _ & Ht);
    apply timers_of_elem in Ht as [Hin _];
    by apply (pick_min _ _ _ Hp) in Hin.
Qed.

(** A callback of another notification does not touch [n]. *)
Lemma run_callback_other (cb : callback) (h : host) :
  node_of cb ≠ n →
  now (run_callback cb h) = now h ∧
  next_node (run_callback cb h) = next_node h ∧
  (n ∈ body (run_callback cb h) ↔ n ∈ body h) ∧
  animation_of n (run_callback cb h) = animation_of n h ∧
  timers_of n (timers (run_callback cb h)) = timers_of n (timers h).
Proof.
  intros Hn. destruct cb as [m|m]; cbn in Hn.
  - unfold run_callback, setTimeout, animation_of.
    cbn [now nodes next_node body timers].
    rewrite timers_of_snoc_other by done.
    by rewrite lookup_alter_ne.
  - unfold run_callback, removeChild, animation_of.
    case_bool_decide; cbn [now nodes next_node body timers]; [|done].
    repeat split; try done; rewrite list_elem_of_filter; naive_solver.
Qed.

Lemma fire_own (h : host) (t : timer) (rest : list timer) :
  on_schedule n t0 h → pick (timers h) = Some (t, rest) →
  node_of (action t) = n →
  on_schedule n t0 (run_callback (action t) (set_clock (now h `max` due t)%Z rest h)).
Proof.
  intros [Hnext Hph] Hp Hn. split.
  { by rewrite run_callback_next_node. }
  destruct Hph as [[(Hb & Ha & Ht) Hnow]|[[(Hb & Ha & Ht) Hnow]|[(Hb & Ht) Hnow]]].
  - destruct (pick_own n _ _ _ _ Hp Hn Ht) as [<- Hrest]. cbn [action due].
    right. left. rewrite Z.max_r by done.
    unfold run_callback, setTimeout, set_clock, animation_of in *.
    cbn [now nodes next_node body timers in_phase].
    split; [|lia]. split; [done|]. split.
    + unfold animation_of. cbn [nodes]. rewrite lookup_alter_eq.
      destruct (nodes h !! n); by simplify_eq/=.
    + rewrite timers_of_snoc_own, Hrest by done. cbn [app]. do 2 f_equal. lia.
  - destruct (pick_own n _ _ _ _ Hp Hn Ht) as [<- Hrest]. cbn [action due].
    right. right. rewrite Z.max_r by lia.
    unfold run_callback, removeChild, set_clock.
    cbn [now nodes next_node body timers].
    rewrite bool_decide_eq_true_2 by done.
    cbn [now nodes next_node body timers in_phase]. split; [|lia]. split; [|done].
    rewrite list_elem_of_filter. naive_solver.
  - assert (Hin : t ∈ timers_of n (timers h)).
    { apply list_elem_of_filter. split; [done|]. apply (pick_elem _ _ _ Hp). by left. }
    rewrite Ht in Hin. by apply elem_of_nil in Hin.
Qed.

Lemma fire_other (h : host) (t : timer) (rest : list timer) :
  on_schedule n t0 h → pick (timers h) = Some (t, rest) →
  node_of (action t) ≠ n →
  on_schedule n t0 (run_callback (action t) (set_clock (now h `max` due t)%Z rest h)).
Proof.
  intros [Hnext Hph] Hp Hn.
  destruct (run_callback_other (action t) (set_clock (now h `max` due t)%Z rest h) Hn)
    as (Hnow' & Hnext' & Hb' & Ha' & Ht').
  cbn [now nodes next_node body timers set_clock] in Hnow', Hnext', Hb', Ht'.
  rewrite (pick_other n _ _ _ Hp Hn) in Ht'.
  change (animation_of n (set_clock (now h `max` due t)%Z rest h))
    with (animation_of n h) in Ha'.
  split; [by rewrite Hnext'|]. rewrite Hnow'.
  destruct Hph as [[Hph Hnow]|[[Hph Hnow]|[Hph Hnow]]];
    pose proof (pending_bound _ _ _ _ Hph Hp) as Hdue; cbv beta iota in Hdue;
    apply (in_phase_ext _ h _ Hb' Ha' Ht') in Hph.
  - left. split; [done|]. lia.
  - right. left. split; [done|]. lia.
  - right. right. split; [done|]. lia.
Qed.

Lemma fire_preserves (h : host) (t : timer) (rest : list timer) :
  on_schedule n t0 h → pick (timers h) = Some (t, rest) →
  on_schedule n t0 (run_callback (action t) (set_clock (now h `max` due t)%Z rest h)).
Proof.
  intros Hs Hp. destruct (decide (node_of (action t) = n)).
  - by apply fire_own.
  - by apply fire_other.
Qed.

(** Letting the clock run when nothing is due up to [until]. *)
Lemma idle_preserves (until : Z) (h : host) :
  on_schedule n t0 h → (∀ u, u ∈ timers h → until < due u)%Z →
  on_schedule n t0 (set_clock (now h `max` until)%Z (timers h) h).
Proof.
  intros [Hnext Hph] Hq. split; [done|]. cbn [now set_clock].
  destruct Hph as [[Hph Hnow]|[[Hph Hnow]|[Hph Hnow]]].
  - left. split; [done|]. destruct Hph as (_ & _ & [Hin _]%timers_of_elem).
    apply Hq in Hin. cbn in Hin. lia.
  - right. left. split; [done|]. destruct Hph as (_ & _ & [Hin _]%timers_of_elem).
    apply Hq in Hin. cbn in Hin. lia.
  - right. right. split; [done|]. lia.
Qed.

Lemma advance_fuel_preserves (fuel : nat) (until : Z) (h : host) :
  on_schedule n t0 h → on_schedule n t0 (advance_fuel fuel until h).
Proof.
  revert h. induction fuel as [|fuel IH]; intros h Hs; [done|].
  cbn [advance_fuel]. destruct (pick (timers h)) as [[t rest]|] eqn:Hp.
  - destruct (Z.leb_spec (due t) until) as [Hle|Hgt].
    + by apply IH, fire_preserves.
    + apply idle_preserves; [done|]. intros u Hu.
      apply (pick_min _ _ _ Hp) in Hu. lia.
  - apply idle_preserves; [done|]. apply pick_None in Hp as ->.
    by intros u ?%elem_of_nil.
Qed.

Lemma show_preserves (message : string) (type : option string) (h : host) :
  on_schedule n t0 h → on_schedule n t0 (showNotification message type h).
Proof.
  intros [Hnext Hph]. split; [cbn; lia|].
  assert (Hne : next_node h ≠ n) by lia.
  assert (Hb : n ∈ body (showNotification message type h) ↔ n ∈ body h).
  { unfold showNotification, setTimeout. cbn [body].
    rewrite elem_of_app, list_elem_of_singleton. naive_solver. }
  assert (Ha : animation_of n (showNotification message type h) = animation_of n h).
  { unfold animation_of, showNotification, setTimeout. cbn [nodes].
    by rewrite lookup_insert_ne. }
  assert (Ht : timers_of n (timers (showNotification message type h))
               = timers_of n (timers h)).
  { unfold showNotification, setTimeout. cbn [timers now].
    by rewrite timers_of_snoc_other. }
  change (now (showNotification message type h)) with (now h).
  destruct Hph as [[Hph Hnow]|[[Hph Hnow]|[Hph Hnow]]];
    apply (in_phase_ext _ h _ Hb Ha Ht) in Hph; tauto.
Qed.

(** The event loop leaves no timer due up to [until], and the clock there. *)
Lemma advance_fuel_quiet (fuel : nat) (until : Z) (h : host) :
  (rounds (timers h) < fuel)%nat → (now h ≤ until)%Z →
  now (advance_fuel fuel until h) = until ∧
  ∀ u, u ∈ timers (advance_fuel fuel until h) → (until < due u)%Z.
Proof.
  revert h. induction fuel as [|fuel IH]; intros h Hf Hnow; [lia|].
  cbn [advance_fuel]. destruct (pick (timers h)) as [[t rest]|] eqn:Hp.
  - destruct (Z.leb_spec (due t) until) as [Hle|Hgt].
    + apply IH.
      * apply pick_rounds in Hp.
        pose proof (run_callback_rounds t (now h `max` due t)%Z rest h). lia.
      * rewrite run_callback_now. cbn [now set_clock]. lia.
    + cbn [now timers set_clock]. split; [lia|]. intros u Hu.
      apply (pick_min _ _ _ Hp) in Hu. lia.
  - cbn [now timers set_clock]. split; [lia|].
    apply pick_None in Hp as ->. by intros u ?%elem_of_nil.
Qed.

Lemma now_advance (until : Z) (h : host) :
  (now h ≤ until)%Z → now (advance until h) = until.
Proof. intros H. apply advance_fuel_quiet; [lia|done]. Qed.

Lemma now_play (es : list event) (h : host) :
  now (play h es) = (now h + elapsed es)%Z.
Proof.
  revert h. induction es as [|e es IH]; intros h; [cbn; lia|].
  change (play h (e :: es)) with (play (play_event h e) es). rewrite IH.
  destruct e as [m ty|ms]; cbn [play_event].
  - done.
  - change (elapsed (Elapse ms :: es)) with (Z.of_N ms + elapsed es)%Z.
    rewrite now_advance; lia.
Qed.

Lemma play_event_in_time (e : event) (h : host) :
  in_time n t0 h → in_time n t0 (play_event h e).
Proof.
  intros [Hs Hq]. destruct e as [m ty|ms]; cbn [play_event].
  - split; [by apply show_preserves|].
    unfold showNotification, setTimeout. cbn [timers now].
    rewrite timers_of_snoc_other; [done|]. destruct Hs as [? _]. cbn. lia.
  - split; [by apply advance_fuel_preserves|].
    destruct (advance_fuel_quiet (S (rounds (timers h))) (now h + Z.of_N ms) h) as [Hn Hu];
      [lia | lia |].
    intros u [_ Hin]%list_elem_of_filter. unfold advance. rewrite Hn. by apply Hu.
Qed.

Lemma play_in_time (es : list event) (h : host) :
  in_time n t0 h → in_time n t0 (play h es).
Proof.
  revert h. induction es as [|e es IH]; intros h Hh; [done|].
  change (play h (e :: es)) with (play (play_event h e) es).
  by apply IH, play_event_in_time.
Qed.

(** What the phase is, read off the clock. *)
Lemma in_time_phase (h : host) :
  in_time n t0 h →
  ((now h < t0 + 5000)%Z → in_phase n t0 Entering h) ∧
  ((t0 + 5000 ≤ now h < t0 + 5300)%Z → in_phase n t0 Leaving h) ∧
  ((t0 + 5300 ≤ now h)%Z → in_phase n t0 Gone h).
Proof.
  intros [[_ Hph] Hq].
  assert (HE : in_phase n t0 Entering h → (now h < t0 + 5000)%Z).
  { intros (_ & _ & Ht). apply (Hq {| due := t0 + 5000; action := Dismiss n |}).
    rewrite Ht. by left. }
  assert (HL : in_phase n t0 Leaving h → (now h < t0 + 5300)%Z).
  { intros (_ & _ & Ht). apply (Hq {| due := t0 + 5300; action := Detach n |}).
    rewrite Ht. by left. }
  destruct Hph as [[Hph Hnow]|[[Hph Hnow]|[Hph Hnow]]].
  - apply HE in Hph as Hlt.
    split; [|split]; intros H; first [done | exfalso; lia].
  - apply HL in Hph as Hlt.
    split; [|split]; intros H; first [done | exfalso; lia].
  - split; [|split]; intros H; first [done | exfalso; lia].
Qed.

End Schedule.

Lemma show_in_time (message : string) (type : option string) (h : host) :
  unused (next_node h) h →
  in_time (next_node h) (now h) (showNotification message type h).
Proof.
  intros [Hb Ht]. unfold in_time, on_schedule, in_phase, animation_of.
  unfold showNotification, setTimeout. cbn [now nodes next_node body timers].
  rewrite timers_of_snoc_own, Ht by done. cbn [app].
  split; [split; [lia|left]|].
  - split; [|lia]. split; [set_solver|]. split; [|done]. by rewrite lookup_insert_eq.
  - intros u ->%list_elem_of_singleton. cbn. lia.
Qed.

(** C7. A call of showNotification on a host where the next node is not
    in use creates one element, appends it to the body at once and sets one
    timer, due 5000 ms later. Whatever notifications are shown afterwards
    and however the time that passes is cut into waits, once [e] ms have
    passed: for [e] below 5000 the element is in the body with its entry
    animation and its only timer is the dismissal at 5000; from 5000 to
    below 5300 it is in the body with the exit animation and its only
    timer is the removal at 5300; from 5300 on it is out of the body and
    has no timer left. The timers of other notifications play no part. *)
Theorem C7_notification_lifecycle
    (message : string) (type : option string) (h : host) (es : list event) :
  unused (next_node h) h →
  (body (showNotification message type h) = body h ++ [next_node h] ∧
   next_node (showNotification message type h) = S (next_node h) ∧
   (∃ nt, nodes (showNotification message type h) = <[next_node h := nt]> (nodes h) ∧
          textContent nt = message ∧
          animation (css nt) = "slideInRight 0.3s ease-out") ∧
   timers (showNotification message type h) =
     timers h ++ [{| due := now h + 5000; action := Dismiss (next_node h) |}]) ∧
  now (play (showNotification message type h) es) = (now h + elapsed es)%Z ∧
  ((elapsed es < 5000)%Z →
   in_phase (next_node h) (now h) Entering (play (showNotification message type h) es)) ∧
  ((5000 ≤ elapsed es < 5300)%Z →
   in_phase (next_node h) (now h) Leaving (play (showNotification message type h) es)) ∧
  ((5300 ≤ elapsed es)%Z →
   in_phase (next_node h) (now h) Gone (play (showNotification message type h) es)).
Proof.
  intros Hu. split.
  { split; [done|]. split; [done|]. split; [|done]. by eexists. }
  pose proof (now_play es (showNotification message type h)) as Hnow.
  change (now (showNotification message type h)) with (now h) in Hnow.
  split; [done|].
  pose proof (play_in_time _ _ es _ (show_in_time message type h Hu)) as Ht.
  apply in_time_phase in Ht as (HE & HL & HG). rewrite Hnow in HE, HL, HG.
  split; [|split]; intros H; [apply HE | apply HL | apply HG]; lia.
Qed.

Lemma C7_witness :
  unused (next_node fresh_page) fresh_page ∧
  in_phase 0 0 Entering
    (play (showNotification sent_message (Some "success") fresh_page)
       [Elapse 2000; Show "Failed to send message. Please try again." (Some "error");
        Elapse 2999]).
Proof.
  assert (H : unused (next_node fresh_page) fresh_page).
  { split; [apply not_elem_of_nil | reflexivity]. }
  split; [exact H|].
  apply (C7_notification_lifecycle sent_message (Some "success") fresh_page
           [Elapse 2000; Show "Failed to send message. Please try again." (Some "error");
            Elapse 2999] H).
  vm_compute. reflexivity.
Defined.

(** The example of the specification, run on the event loop: present with
    the entry animation up to 4999 ms, leaving from 5000 ms, still in the
    body at 5299 ms, removed at 5300 ms; a second notification shown after
    2000 ms keeps its own times. *)
Example success_notification_times :
  let shown := showNotification sent_message (Some "success") fresh_page in
  body shown = [0%nat] ∧
  (body (play shown [Elapse 4999]), animation_of 0 (play shown [Elapse 4999]))
    = ([0%nat], Some "slideInRight 0.3s ease-out") ∧
  (body (play shown [Elapse 5000]), animation_of 0 (play shown [Elapse 5000]))
    = ([0%nat], Some "slideOutRight 0.3s ease-in forwards") ∧
  body (play shown [Elapse 5299]) = [0%nat] ∧
  body (play shown [Elapse 5300]) = [] ∧
  body (play shown [Elapse 2000; Show "later" None; Elapse 3300]) = [1%nat] ∧
  body (play shown [Elapse 2000; Show "later" None; Elapse 5299]) = [1%nat] ∧
  body (play shown [Elapse 2000; Show "later" None; Elapse 5300]) = [] ∧
  uncaught (play shown [Elapse 2000; Show "later" None; Elapse 5300]) = [].
Proof. vm_compute. done. Qed.

(** *** Severity *)

Lemma showNotification_creates (message : string) (type : option string) (h : host) :
  ∃ nt, nodes (showNotification message type h) !! next_node h = Some nt ∧
        className nt = "notification notification--" +:+ default "info" type ∧
        textContent nt = message ∧
        background (css nt) =
          (if String.eqb (default "info" type) "success"
           then "var(--color-success)" else "var(--color-error)") ∧
        css nt =
          {| position := "fixed"; top := "20px"; right := "20px";
             background := background (css nt); color := "white";
             padding := "var(--spacing-4) var(--spacing-6)";
             border_radius := "var(--border-radius-base)";
             box_shadow := "var(--shadow-lg)"; z_index := "var(--z-toast)";
             animation := "slideInRight 0.3s ease-out" |}.
Proof.
  eexists. unfold showNotification, setTimeout. cbn [nodes].
  rewrite lookup_insert_eq. split; [reflexivity|]. by cbn.
Qed.




(** The success severity, the one with a colour of its own. *)
Lemma success_background (message : string) (h : host) :
  ∃ nt, nodes (showNotification message (Some "success") h) !! next_node h = Some nt ∧
        background (css nt) = "var(--color-success)".
Proof.
  destruct (showNotification_creates message (Some "success") h) as (nt & ? & _ & _ & ? & _).
  by exists nt.
Qed.

End ToastFacts.

(** ** Remote data hydration *)

Module HydrationFacts.
Import JS Hydration.

Lemma writes_refl (P : nat → Prop) (d : document) : writes P d d.
Proof. by repeat split. Qed.

Lemma writes_weaken (P Q : nat → Prop) (d d' : document) :
  (∀ n, P n → Q n) → writes P d d' → writes Q d d'.
Proof. intros HPQ (? & ? & H). repeat split; [done..|]. intros n Hn. by apply HPQ, H. Qed.

Lemma writes_trans (P : nat → Prop) (d1 d2 d3 : document) :
  writes P d1 d2 → writes P d2 d3 → writes P d1 d3.
Proof.
  intros (Hq1 & Hi1 & H1) (Hq2 & Hi2 & H2).
  repeat split; [congruence..|]. intros n Hn.
  destruct (decide (text d2 !! n = text d1 !! n)) as [Heq|Hne].
  - apply H2. by rewrite Heq.
  - by apply H1.
Qed.

Lemma writes_set_text (n : nat) (s : string) (d : document) :
  writes (λ m, m = n) d (set_text n s d).
Proof.
  repeat split. intros m Hm. cbn in Hm.
  destruct (decide (n = m)) as [->|Hne]; [done|]. by rewrite lookup_insert_ne in Hm.
Qed.

Lemma designated_writes (P : nat → Prop) (d d' : document) (k : string) :
  writes P d d' → designated d' k = designated d k.
Proof. intros (Hq & Hi & _). unfold designated. by rewrite Hq, Hi. Qed.

Lemma truthy_defined (v : value) : truthy v = true → v ≠ VUndefined.
Proof. by intros H ->. Qed.

Section Host.
Variable ToNumber : value → number.
Variable ToText : value → string.

Lemma assign_if_writes (element : option nat) (obj : value) (k : string) (d : document) :
  writes (λ n, element = Some n) d (page_of (assign_if ToText element obj k d)).
Proof.
  unfold assign_if. destruct element as [e|]; [|apply writes_refl].
  destruct (get obj k) as [v|]; [|apply writes_refl].
  destruct (truthy v); [|apply writes_refl].
  eapply writes_weaken; [|apply writes_set_text]. by intros n ->.
Qed.

Lemma page_of_and_then (P : nat → Prop) (d : document) (o : outcome)
    (k : document → outcome) :
  writes P d (page_of o) → (∀ d1, writes P d d1 → writes P d1 (page_of (k d1))) →
  writes P d (page_of (and_then o k)).
Proof.
  intros Ho Hk. destruct o as [d1|e d1]; [|done]. cbn in *.
  eapply writes_trans; [done|]. by apply Hk.
Qed.

Lemma updateAchievements_writes (achievements : value) (d : document) :
  writes (λ n, n ∈ designated d "achievements") d
    (page_of (updateAchievements ToNumber ToText achievements d)).
Proof.
  unfold updateAchievements, designated. cbn [String.eqb Ascii.eqb Bool.eqb].
  destruct (querySelector d DataAchievements) as [section|]; [|apply writes_refl].
  destruct (get achievements "length") as [len|]; [|apply writes_refl].
  destruct (gt _ _); [|apply writes_refl].
  destruct (first achievements) as [fa|]; [|apply writes_refl].
  destruct (querySelector_in d section Badge) as [badge|]; [|apply writes_refl].
  destruct (get fa "title") as [title|]; [|apply writes_refl].
  eapply writes_weaken; [|apply writes_set_text]. intros n ->. cbn. by left.
Qed.

(** Three guarded assignments in a row write the three elements at most. *)
Lemma three_assignments (obj : value) (d : document) (e1 e2 e3 : option nat)
    (k1 k2 k3 : string) :
  writes (λ n, n ∈ omap id [e1; e2; e3]) d
    (page_of (and_then (assign_if ToText e1 obj k1 d) (λ d,
              and_then (assign_if ToText e2 obj k2 d) (λ d,
              assign_if ToText e3 obj k3 d)))).
Proof.
  assert (Hin : ∀ e n, e = Some n → e ∈ [e1; e2; e3] → n ∈ omap id [e1; e2; e3]).
  { intros e n -> He. apply list_elem_of_omap. by exists (Some n). }
  apply page_of_and_then.
  { eapply writes_weaken; [|apply assign_if_writes].
    intros n Hn. apply (Hin e1); [done|set_solver]. }
  intros d1 _. apply page_of_and_then.
  { eapply writes_weaken; [|apply assign_if_writes].
    intros n Hn. apply (Hin e2); [done|set_solver]. }
  intros d2 _. eapply writes_weaken; [|apply assign_if_writes].
  intros n Hn. apply (Hin e3); [done|set_solver].
Qed.

Lemma updateBenefits_writes (benefits : value) (d : document) :
  writes (λ n, n ∈ designated d "benefits") d
    (page_of (updateBenefits ToText benefits d)).
Proof. apply three_assignments. Qed.

Lemma updateMarketData_writes (marketData : value) (d : document) :
  writes (λ n, n ∈ designated d "market_data") d
    (page_of (updateMarketData ToText marketData d)).
Proof. apply three_assignments. Qed.

Lemma when_present_writes (data : value) (k : string)
    (update : value → document → outcome) (d : document) :
  (∀ v, writes (λ n, n ∈ designated d k) d (page_of (update v d))) →
  writes (λ n, present data k ∧ n ∈ designated d k) d
    (page_of (when_present data k update d)).
Proof.
  intros Hu. unfold when_present.
  destruct (get data k) as [v|] eqn:Hg; [|apply writes_refl].
  destruct (truthy v) eqn:Hv; [|apply writes_refl].
  eapply writes_weaken; [|apply Hu]. intros n Hn. split; [|done].
  exists v. split; [done|]. by apply truthy_defined.
Qed.

(** What [populateCompanyData] may write: elements designated by fields
    that the payload has. *)
Lemma populateCompanyData_writes (data : value) (d : document) :
  writes (λ n, ∃ k, k ∈ top_fields ∧ present data k ∧ n ∈ designated d k) d
    (page_of (populateCompanyData ToNumber ToText data d)).
Proof.
  unfold populateCompanyData. apply page_of_and_then.
  { eapply writes_weaken; [|apply when_present_writes; intros v; apply updateAchievements_writes].
    intros n [? ?]. exists "achievements". split; [set_solver|done]. }
  intros d1 H1. apply page_of_and_then.
  { eapply writes_weaken; [|apply when_present_writes; intros v; apply updateBenefits_writes].
    intros n [? ?]. exists "benefits". split; [set_solver|].
    by rewrite <- (designated_writes _ _ _ _ H1). }
  intros d2 H2. pose proof (writes_trans _ _ _ _ H1 H2) as H12.
  eapply writes_weaken; [|apply when_present_writes; intros v; apply updateMarketData_writes].
  intros n [? ?]. exists "market_data". split; [set_solver|].
  by rewrite <- (designated_writes _ _ _ _ H12).
Qed.

(** C8. Whatever the payload, [loadCompanyData] returns with the page
    and its console warnings, moves no element, and changes the text of an
    element only if a top-level field that the payload has designates it:
    the elements of an absent field keep their text unless a field that is
    present designates them as well. The empty payload changes nothing
    and warns of nothing, and neither does [populateCompanyData] throw on
    it. A rejected fetch leaves the page as it is and logs one warning; a
    response that is not ok leaves it as it is without one. *)
Theorem C8_absent_fields_write_nothing
    (data : value) (error : string) (json : option value) (d : document) :
  writes (λ n, ∃ k, k ∈ top_fields ∧ present data k ∧ n ∈ designated d k) d
    (loadCompanyData ToNumber ToText (Response true (Some data)) d).1 ∧
  (∀ k n, ¬ present data k → n ∈ designated d k →
          (∀ k', k' ≠ k → n ∉ designated d k') →
          text (loadCompanyData ToNumber ToText (Response true (Some data)) d).1 !! n
          = text d !! n) ∧
  populateCompanyData ToNumber ToText (VObj []) d = Returned d ∧
  loadCompanyData ToNumber ToText (Response true (Some (VObj []))) d = (d, []) ∧
  loadCompanyData ToNumber ToText (Rejected error) d
    = (d, ["Could not load company data: " +:+ error]) ∧
  loadCompanyData ToNumber ToText (Response false json) d = (d, []).
Proof.
  assert (Hw : writes (λ n, ∃ k, k ∈ top_fields ∧ present data k ∧ n ∈ designated d k) d
                 (loadCompanyData ToNumber ToText (Response true (Some data)) d).1).
  { pose proof (populateCompanyData_writes data d) as H. cbn [loadCompanyData].
    by destruct (populateCompanyData ToNumber ToText data d). }
  split; [done|]. split; [|done].
  intros k n Hk Hn Hother.
  destruct (decide (text (loadCompanyData ToNumber ToText (Response true (Some data)) d).1
                      !! n = text d !! n)) as [|Hne]; [done|].
  destruct Hw as (_ & _ & Hw). destruct (Hw n Hne) as (k' & _ & Hk' & Hn').
  destruct (decide (k' = k)) as [->|Hkk]; [done|]. by destruct (Hother k' Hkk).
Qed.

End Host.

Lemma C8_witness :
  ¬ present (VObj [("benefits", VObj [("cost_reduction", VStr "75%")])]) "market_data" ∧
  5%nat ∈ designated sample_page "market_data" ∧
  text (loadCompanyData plain_number plain_text
          (Response true (Some (VObj [("benefits", VObj [("cost_reduction", VStr "75%")])])))
          sample_page).1 !! 5%nat
    = text sample_page !! 5%nat.
Proof.
  assert (Ha : ¬ present (VObj [("benefits", VObj [("cost_reduction", VStr "75%")])])
                 "market_data").
  { intros (v & Hg & Hv). vm_compute in Hg. congruence. }
  assert (Hd : 5%nat ∈ designated sample_page "market_data") by compute_done.
  split; [exact Ha|]. split; [exact Hd|].
  apply (proj1 (proj2 (C8_absent_fields_write_nothing plain_number plain_text
           (VObj [("benefits", VObj [("cost_reduction", VStr "75%")])]) "" None sample_page))
           "market_data" 5%nat Ha Hd).
  intros k' Hk'. unfold designated.
  destruct (String.eqb_spec k' "achievements"); [compute_done|].
  destruct (String.eqb_spec k' "benefits"); [compute_done|].
  destruct (String.eqb_spec k' "market_data"); [done|]. apply not_elem_of_nil.
Defined.

(** Payloads run on the sample page: the empty one, one with achievements
    and a cost figure only, and one whose first achievement is null. *)
Example hydration_samples :
  loadCompanyData plain_number plain_text (Response true (Some (VObj []))) sample_page
    = (sample_page, []) ∧
  text (loadCompanyData plain_number plain_text
          (Response true (Some (VObj
             [("achievements", VArr [VObj [("title", VStr "Winner")]]);
              ("benefits", VObj [("cost_reduction", VStr "75%")])]))) sample_page).1
    = <[2%nat := "75%"]> (<[1%nat := "Winner"]> (text sample_page)) ∧
  loadCompanyData plain_number plain_text
    (Response true (Some (VObj [("achievements", VArr [VNull])]))) sample_page
    = (sample_page, ["Could not load company data: TypeError"]) ∧
  loadCompanyData plain_number plain_text (Response false None) sample_page
    = (sample_page, []).
Proof. vm_compute. done. Qed.

End HydrationFacts.

(** ** Timeline animation engine *)

Module TimelineFacts.
Import Timeline.

(** With gsap defined nothing throws, whatever the preference. *)
Lemma with_gsap_normal (env : environment) :
  gsap env = true →
  (on_DOMContentLoaded env).2 = Normal ∧
  (on_visibilitychange env).2 = Normal ∧
  (on_motion_change env).2 = Normal.
Proof.
  destruct env as [g rm hid anims]. cbn. intros ->.
  by destruct rm, hid.
Qed.

(** C9. On the code, a missing gsap does not make the engine a no-op.
    The constructor only warns, but with the reduced-motion preference
    active setupAccessibility names gsap and the DOMContentLoaded listener
    ends on a ReferenceError, after a visibilitychange listener has been
    added; and the visibilitychange and preference-change listeners throw
    the same error whenever they run. *)
Theorem C9_missing_gsap_throws (rm hid : bool) (anims : list effect) :
  constructor {| gsap := false; reduced_motion := rm; hidden := hid;
                 page_animations := anims |}
    = ([Console_warn "GSAP not loaded - falling back to CSS animations"], Normal) ∧
  on_DOMContentLoaded {| gsap := false; reduced_motion := true; hidden := hid;
                         page_animations := anims |}
    = ([Console_warn "GSAP not loaded - falling back to CSS animations";
        AddListener "document" "visibilitychange"], ReferenceError "gsap") ∧
  on_DOMContentLoaded {| gsap := false; reduced_motion := false; hidden := hid;
                         page_animations := anims |}
    = ([Console_warn "GSAP not loaded - falling back to CSS animations";
        AddListener "document" "visibilitychange";
        AddListener "prefers-reduced-motion" "change"], Normal) ∧
  on_visibilitychange {| gsap := false; reduced_motion := rm; hidden := hid;
                         page_animations := anims |}
    = ([], ReferenceError "gsap") ∧
  on_motion_change {| gsap := false; reduced_motion := rm; hidden := hid;
                      page_animations := anims |}
    = ([], ReferenceError "gsap").
Proof. by destruct rm, hid. Qed.

End TimelineFacts.

(** ** Decimal strings and [parseInt] *)

Module ParseFacts.
Import JS JSFacts Digits.








(** *** Printing and reading back *)







End ParseFacts.

(** ** Counter animator: timing and targets that are not positive *)

Module CounterMore.
Import JS JSFacts Counter CounterFacts Schedule.




(** X2. A target that is zero or negative is reached on the first callback:
    one frame, which writes the target and clears the interval. *)
Theorem counter_nonpositive_jumps (c : counter) (n ms : Z) (m : nat) :
  parseInt (data_target c) = of_Z n → (n ≤ 0)%Z →
  frames (S m) (startCounter c) = [tick (startCounter c)] ∧
  timer (tick (startCounter c)) = false ∧
  current (tick (startCounter c)) = of_Z n ∧
  text (tick (startCounter c)) = show (format_of (textContent c)) (of_Z n) ∧
  text_at ms c =
    if (ms <? 550)%Z then textContent c
    else show (format_of (textContent c)) (of_Z n).
Proof.
  intros Hp Hn.
  assert (Hge : ge (add (current (startCounter c)) (increment (startCounter c)))
                   (target (startCounter c)) = true).
  { unfold startCounter. cbn [current increment target]. rewrite Hp, div_by_60.
    unfold of_Z. cbn [add]. apply ge_true.
    unfold Qle, Qplus, Qdiv, Qmult, Qinv, inject_Z. cbn. lia. }
  assert (Htm : timer (tick (startCounter c)) = false).
  { unfold tick. cbn [timer]. by rewrite Hge. }
  assert (Hc : current (tick (startCounter c)) = of_Z n).
  { rewrite (tick_clamps _ Htm). unfold startCounter. by cbn [target]. }
  assert (Ht : text (tick (startCounter c)) = show (format_of (textContent c)) (of_Z n)).
  { rewrite text_tick. unfold displayed. by rewrite Hc, Math_floor_of_Z. }
  assert (Hf : ∀ k, frames (S k) (startCounter c) = [tick (startCounter c)]).
  { intros k. cbn [frames]. change (timer (startCounter c)) with true. cbn match.
    by rewrite frames_cleared. }
  split; [apply Hf|]. split; [done|]. split; [done|]. split; [done|].
  unfold text_at, callbacks_by. destruct (Z.ltb_spec ms 550) as [Hlt|Hms].
  - replace (Z.to_nat ((ms - 500) / 50)) with 0%nat; [done|].
    assert ((ms - 500) / 50 < 1)%Z by (apply Z.div_lt_upper_bound; lia). lia.
  - assert (Hq : (1 ≤ (ms - 500) / 50)%Z) by (apply Z.div_le_lower_bound; lia).
    destruct (Z.to_nat ((ms - 500) / 50)) as [|k] eqn:Hk; [lia|].
    rewrite Hf. cbn [last fmap option_fmap option_map default from_option id].
    by rewrite Ht.
Qed.

Lemma counter_nonpositive_jumps_witness :
  parseInt (data_target minus_five) = of_Z (-5) ∧ (-5 ≤ 0)%Z ∧
  frames 100 (startCounter minus_five) = [tick (startCounter minus_five)] ∧
  text (tick (startCounter minus_five)) = "-5%".
Proof.
  assert (Hp : parseInt (data_target minus_five) = of_Z (-5)) by reflexivity.
  assert (Hn : (-5 ≤ 0)%Z) by lia.
  split; [exact Hp|]. split; [exact Hn|].
  destruct (counter_nonpositive_jumps minus_five (-5) 0 99 Hp Hn) as (Hf & _ & _ & Ht & _).
  split; [exact Hf | exact Ht].
Defined.

End CounterMore.

(** ** Statistics tweens: [animateStats] *)

Module StatsFacts.
Import JS JSFacts Counter CounterFacts Digits ParseFacts Timeline.












End StatsFacts.

(** ** Navigation: more on the menu and the active link *)

Module NavMore.
Import Nav NavFacts NavScroll.

(** X5. A click on a link of the mobile menu closes the menu whatever state
    it finds, also one where button and menu disagree; a second click
    changes nothing more, and the next click on the toggle opens the menu
    with scroll locked and aria-expanded true. *)
Theorem link_click_resets (p : page) :
  menuOpen (link_click p) = false ∧
  toggle_active (link_click p) = false ∧
  scroll_locked (link_click p) = false ∧
  aria_expanded (link_click p) = Some "false" ∧
  link_click (link_click p) = link_click p ∧
  menuOpen (toggle_click (link_click p)) = true ∧
  scroll_locked (toggle_click (link_click p)) = true ∧
  aria_expanded (toggle_click (link_click p)) = Some "true".
Proof.
  assert (Ht : "nav__toggle--active" ∉ toggle_classes (link_click p)).
  { unfold link_click, classList_remove. cbn. set_solver. }
  assert (Hm : "nav__menu--open" ∉ menu_classes (link_click p)).
  { unfold link_click, classList_remove. cbn. set_solver. }
  split; [by apply bool_decide_eq_false_2|].
  split; [by apply bool_decide_eq_false_2|].
  split; [done|]. split; [done|]. split.
  { unfold link_click, classList_remove. cbn. f_equal; set_solver. }
  rewrite (toggle_click_opens _ Ht Hm). unfold menuOpen, scroll_locked. cbn.
  split; [|done]. apply bool_decide_eq_true_2. set_solver.
Qed.

Lemma classList_toggle_spec (c : string) (cl : gset string) :
  (classList_toggle c cl).1 = negb (bool_decide (c ∈ cl)) ∧
  bool_decide (c ∈ (classList_toggle c cl).2) = negb (bool_decide (c ∈ cl)) ∧
  (classList_toggle c (classList_toggle c cl).2).2 = cl.
Proof.
  destruct (decide (c ∈ cl)) as [Hc|Hc].
  - rewrite (toggle_present _ _ Hc), (bool_decide_eq_true_2 _ Hc). cbn [fst snd negb].
    split; [done|]. split; [apply bool_decide_eq_false_2; set_solver|].
    rewrite toggle_absent by set_solver. cbn [snd].
    apply set_eq. intros x. rewrite elem_of_union, elem_of_difference, elem_of_singleton.
    destruct (decide (x = c)); naive_solver.
  - rewrite (toggle_absent _ _ Hc), (bool_decide_eq_false_2 _ Hc). cbn [fst snd negb].
    split; [done|]. split; [apply bool_decide_eq_true_2; set_solver|].
    rewrite toggle_present by set_solver. cbn [snd]. set_solver.
Qed.

Lemma toggle_click_fields (p : page) :
  toggle_classes (toggle_click p)
    = (classList_toggle "nav__toggle--active" (toggle_classes p)).2 ∧
  menu_classes (toggle_click p)
    = (classList_toggle "nav__menu--open" (menu_classes p)).2 ∧
  aria_expanded (toggle_click p)
    = Some (if (classList_toggle "nav__toggle--active" (toggle_classes p)).1
            then "true" else "false") ∧
  body_overflow (toggle_click p)
    = (if (classList_toggle "nav__toggle--active" (toggle_classes p)).1
       then "hidden" else "").
Proof.
  unfold toggle_click.
  by destruct (classList_toggle "nav__toggle--active" (toggle_classes p)),
              (classList_toggle "nav__menu--open" (menu_classes p)).
Qed.

(** X6. The toggle handler flips the two classes independently and takes
    aria-expanded and the scroll lock from the button alone. Whatever the
    state, two clicks give back both class lists; a click flips the button
    and flips the menu, so whether the two agree is never changed by it;
    and after every click aria-expanded and the scroll lock say what the
    button says, not what the menu shows. *)
Theorem toggle_click_follows_button (p : page) :
  toggle_classes (toggle_click (toggle_click p)) = toggle_classes p ∧
  menu_classes (toggle_click (toggle_click p)) = menu_classes p ∧
  toggle_active (toggle_click p) = negb (toggle_active p) ∧
  menuOpen (toggle_click p) = negb (menuOpen p) ∧
  aria_expanded (toggle_click p)
    = Some (if toggle_active (toggle_click p) then "true" else "false") ∧
  scroll_locked (toggle_click p) = toggle_active (toggle_click p).
Proof.
  destruct (toggle_click_fields p) as (Ht & Hm & Ha & Ho).
  destruct (toggle_click_fields (toggle_click p)) as (Ht2 & Hm2 & _ & _).
  destruct (classList_toggle_spec "nav__toggle--active" (toggle_classes p))
    as (Ht1 & Htb & Htr).
  destruct (classList_toggle_spec "nav__menu--open" (menu_classes p))
    as (_ & Hmb & Hmr).
  unfold toggle_active, menuOpen, scroll_locked.
  rewrite Ht2, Hm2, Ha, Ho, Ht, Hm, Htr, Hmr, Htb, Hmb, Ht1.
  repeat split. by destruct (bool_decide _).
Qed.

(** The state [out_of_step] shows it: the button is active, the menu
    closed; a click closes the button and opens the menu, with
    aria-expanded false and scroll free while the menu is showing. *)
Example toggle_click_out_of_step :
  menuOpen (toggle_click out_of_step) = true ∧
  aria_expanded (toggle_click out_of_step) = Some "false" ∧
  scroll_locked (toggle_click out_of_step) = false.
Proof. vm_compute. done. Qed.

(** *** The loop over the links *)

Lemma update_link_bare (currentPath : string) (l : link) :
  pathname l = None →
  update_link currentPath l =
    ({| pathname := None;
        classes := classes l ∖ {["nav__link--active"]};
        aria_current := None |}, false).
Proof. intros H. unfold update_link, classList_remove. by rewrite H. Qed.

(** X7. A link element without a URL stops the loop: the links before it are
    marked as usual, the link itself has lost class and marker, the links
    after it are left as they were, whatever markers they carry, and the
    method ends on the error. *)
Theorem updateActiveNavigation_stops_at_bare_link
    (currentPath : string) (before after : list link) (bad : link) :
  Forall (λ l, is_Some (pathname l)) before → pathname bad = None →
  updateActiveNavigation currentPath (before ++ bad :: after) =
    (((λ l, (update_link currentPath l).1) <$> before)
       ++ {| pathname := None;
             classes := classes bad ∖ {["nav__link--active"]};
             aria_current := None |} :: after,
     false).
Proof.
  intros Hb Hbad. induction Hb as [|l rest Hl _ IH].
  - cbn [app fmap list_fmap updateActiveNavigation].
    by rewrite (update_link_bare _ _ Hbad).
  - cbn [app fmap list_fmap updateActiveNavigation].
    destruct (update_link_spec currentPath l Hl) as (l' & Hu & _).
    rewrite Hu. cbn [fst]. by rewrite IH.
Qed.

Lemma updateActiveNavigation_stops_witness :
  Forall (λ l, is_Some (pathname l)) [home_link] ∧ pathname bare_link = None ∧
  active <$> (updateActiveNavigation "/" [home_link; bare_link; stale_link]).1
    = [true; false; true] ∧
  (updateActiveNavigation "/" [home_link; bare_link; stale_link]).2 = false.
Proof.
  assert (H : Forall (λ l, is_Some (pathname l)) [home_link]).
  { repeat constructor. by eexists. }
  split; [exact H|]. split; [reflexivity|].
  pose proof (updateActiveNavigation_stops_at_bare_link "/" [home_link] [stale_link]
                bare_link H eq_refl) as Hstop.
  cbn [app] in Hstop. rewrite Hstop. vm_compute. done.
Defined.

(** X8. Only the current path counts. When every link has a URL, the result
    does not depend on markers left earlier: running the method for one
    path and then for another gives what the second run alone gives, and
    running it twice for the same path what one run gives. *)
Theorem updateActiveNavigation_last_path_wins
    (path1 path2 : string) (navLinks : list link) :
  Forall (λ l, is_Some (pathname l)) navLinks →
  updateActiveNavigation path2 (updateActiveNavigation path1 navLinks).1
    = updateActiveNavigation path2 navLinks ∧
  updateActiveNavigation path1 (updateActiveNavigation path1 navLinks).1
    = updateActiveNavigation path1 navLinks.
Proof.
  intros Hall.
  assert (Hstep : ∀ p q l, is_Some (pathname l) →
            (update_link q (update_link p l).1).1 = (update_link q l).1 ∧
            is_Some (pathname (update_link p l).1)).
  { intros p q [[lp|] cl ac] [? Hlp]; [|done]. unfold update_link.
    cbn [pathname classes aria_current]. rewrite path_test.
    unfold classList_add, classList_remove.
    destruct (bool_decide (lp = p)); cbn [fst pathname classes aria_current];
      rewrite path_test; (split; [|by eexists]);
      destruct (bool_decide (lp = q)); cbn [fst]; f_equal; set_solver. }
  assert (Hgen : ∀ p q,
            updateActiveNavigation q (updateActiveNavigation p navLinks).1
            = updateActiveNavigation q navLinks).
  { intros p q. rewrite (updateActiveNavigation_spec p _ Hall). cbn [fst].
    rewrite !updateActiveNavigation_spec; [|done|].
    - f_equal. rewrite <- list_fmap_compose. apply list_fmap_ext.
      intros i l Hi. cbn. apply Hstep.
      rewrite Forall_forall in Hall. apply Hall. by eapply list_elem_of_lookup_2.
    - apply Forall_fmap. eapply Forall_impl; [exact Hall|].
      intros l Hl. cbn. by apply Hstep. }
  split; apply Hgen.
Qed.

Lemma updateActiveNavigation_last_path_wins_witness :
  Forall (λ l, is_Some (pathname l)) [home_link; stale_link] ∧
  active <$> (updateActiveNavigation "/"
                (updateActiveNavigation "/about" [home_link; stale_link]).1).1
    = [true; false].
Proof.
  assert (H : Forall (λ l, is_Some (pathname l)) [home_link; stale_link]).
  { repeat constructor; by eexists. }
  split; [exact H|].
  rewrite (proj1 (updateActiveNavigation_last_path_wins "/about" "/" _ H)).
  vm_compute. done.
Defined.

End NavMore.

(** ** Rate limiting *)

Module SignalsFacts.
Import Nav NavScroll Signals.

Section Calls.
Context {A : Type}.
Implicit Types (calls : list (Z * A)) (limit wait t l until : Z).

(** While a reset is pending for [l + limit], the calls that go through
    are those of the rule, counted from [l]. *)
Lemma run_throttled_pending limit l calls :
  run_throttled limit calls {| inThrottle := true; resets := [(l + limit)%Z] |}
  = spaced limit (Some l) calls.
Proof.
  revert l. induction calls as [|[t a] rest IH]; intros l; [done|].
  cbn [run_throttled spaced]. unfold fire_resets. cbn [resets inThrottle existsb List.filter].
  rewrite orb_false_r. destruct (l + limit <=? t)%Z.
  - cbn [negb throttled inThrottle resets app]. unfold throttled.
    cbn [inThrottle resets app]. by rewrite IH.
  - cbn [negb]. unfold throttled. cbn [inThrottle app]. by rewrite IH.
Qed.

Lemma run_throttled_idle limit calls :
  run_throttled limit calls idle = spaced limit None calls.
Proof.
  destruct calls as [|[t a] rest]; [done|].
  cbn [run_throttled spaced]. unfold fire_resets, throttled, idle.
  cbn [resets inThrottle existsb List.filter app]. by rewrite run_throttled_pending.
Qed.

Lemma spaced_sublist limit last calls : spaced limit last calls `sublist_of` calls.
Proof.
  revert last. induction calls as [|[t a] rest IH]; intros last; [done|].
  cbn [spaced]. case_match; [apply sublist_skip | apply sublist_cons]; apply IH.
Qed.

Lemma spaced_first limit last calls t a :
  head (spaced limit last calls) = Some (t, a) →
  match last with Some l => (l + limit ≤ t)%Z | None => True end.
Proof.
  revert last. induction calls as [|[t' a'] rest IH]; intros last; [done|].
  cbn [spaced]. destruct last as [l|].
  - destruct (Z.leb_spec (l + limit) t') as [Hle|Hgt].
    + by intros [= <- <-].
    + intros H. by apply (IH (Some l)).
  - done.
Qed.

Lemma spaced_gaps limit last calls i t1 a1 t2 a2 :
  spaced limit last calls !! i = Some (t1, a1) →
  spaced limit last calls !! S i = Some (t2, a2) →
  (t1 + limit ≤ t2)%Z.
Proof.
  revert last i. induction calls as [|[t a] rest IH]; intros last i; [done|].
  cbn [spaced]. case_match; [|apply IH].
  destruct i as [|i]; cbn.
  - intros [= <- <-] H2. apply (spaced_first limit (Some t) rest t2 a2).
    by rewrite head_lookup.
  - apply IH.
Qed.

(** X9. The function that [throttle] returns lets a call through exactly when
    no call went through in the [limit] ms before it: the first call
    always goes through, calls that go through are at least [limit] ms
    apart, and the others are dropped for good, the last call of a burst
    included. *)
Theorem throttle_spaces_calls limit calls :
  run_throttled limit calls idle = spaced limit None calls ∧
  run_throttled limit calls idle `sublist_of` calls ∧
  head (run_throttled limit calls idle) = head calls ∧
  ∀ i t1 a1 t2 a2,
    run_throttled limit calls idle !! i = Some (t1, a1) →
    run_throttled limit calls idle !! S i = Some (t2, a2) →
    (t1 + limit ≤ t2)%Z.
Proof.
  rewrite run_throttled_idle. split; [done|]. split; [apply spaced_sublist|].
  split; [by destruct calls as [|[t a] rest]|]. apply spaced_gaps.
Qed.

(** *** [debounce] *)

Lemma run_debounced_settled wait calls until (timeout : option (Z * A)) :
  (run_debounced wait calls timeout).1
    ++ (fire_timeout until (run_debounced wait calls timeout).2).2
  = (fire_timeout (match calls with (t, _) :: _ => t | [] => until end) timeout).2
    ++ settled wait calls until.
Proof.
  revert timeout. induction calls as [|[t a] rest IH]; intros timeout.
  { cbn. by rewrite app_nil_r. }
  cbn [run_debounced settled].
  destruct (fire_timeout t timeout) as [timeout' ran] eqn:Hf.
  specialize (IH (debounced wait t a timeout')).
  destruct (run_debounced wait rest (debounced wait t a timeout')) as [ran' pending].
  cbn [fst snd] in *. rewrite <- app_assoc, IH. f_equal. f_equal.
  unfold debounced. cbn [fire_timeout]. by destruct (_ <=? _)%Z.
Qed.

(** X10. The function that [debounce] returns passes a call on, [wait] ms after
    it, exactly when no other call comes before that moment; every other
    call is replaced by its successor. *)
Theorem debounce_settles wait calls until :
  debounce_until wait calls until = settled wait calls until.
Proof.
  unfold debounce_until.
  pose proof (run_debounced_settled wait calls until None) as H.
  destruct (run_debounced wait calls None) as [ran pending]. cbn [fst snd] in H.
  rewrite H. by destruct calls as [|[t a] rest].
Qed.

(** X11. A burst of calls, each less than [wait] ms after the one before, ends
    in one application of the function, [wait] ms after the last call and
    with the arguments of that call. *)
Theorem debounce_burst wait calls t a until :
  (∀ i t1 a1 t2 a2, (calls ++ [(t, a)]) !! i = Some (t1, a1) →
                    (calls ++ [(t, a)]) !! S i = Some (t2, a2) → (t2 < t1 + wait)%Z) →
  (t + wait ≤ until)%Z →
  debounce_until wait (calls ++ [(t, a)]) until = [((t + wait)%Z, a)].
Proof.
  intros Hgap Hu. unfold debounce_until.
  pose proof (run_debounced_settled wait (calls ++ [(t, a)]) until None) as H.
  destruct (run_debounced wait (calls ++ [(t, a)]) None) as [ran pending].
  cbn [fst snd] in H. rewrite H.
  replace (fire_timeout _ None).2 with (@nil (Z * A)) by (by destruct (calls ++ [(t, a)]) as [|[? ?] ?]).
  cbn [app]. clear H ran pending.
  induction calls as [|[t1 a1] rest IH].
  - cbn. by rewrite (proj2 (Z.leb_le _ _) Hu).
  - cbn [app settled].
    assert (Hnext : ∃ t2 a2 more, rest ++ [(t, a)] = (t2, a2) :: more).
    { destruct rest as [|[t2 a2] more]; cbn; eauto. }
    destruct Hnext as (t2 & a2 & more & Hr). rewrite Hr.
    pose proof (Hgap 0%nat t1 a1 t2 a2) as H0. cbn [app] in H0. rewrite Hr in H0.
    specialize (H0 eq_refl eq_refl).
    rewrite (proj2 (Z.leb_gt _ _) H0). cbn [app]. rewrite <- Hr. apply IH.
    intros i. apply (Hgap (S i)).
Qed.

End Calls.

Lemma throttle_spaces_calls_witness :
  run_throttled 100 [(0%Z, "a"); (60%Z, "b"); (100%Z, "c"); (130%Z, "d")] idle
    = [(0%Z, "a"); (100%Z, "c")] ∧
  (0 + 100 ≤ 100)%Z.
Proof.
  split; [reflexivity|].
  apply (proj2 (proj2 (proj2 (throttle_spaces_calls 100
           [(0%Z, "a"); (60%Z, "b"); (100%Z, "c"); (130%Z, "d")])))
           0%nat 0%Z "a" 100%Z "c"); reflexivity.
Defined.

Lemma debounce_burst_witness :
  (∀ i t1 a1 t2 a2,
     ([(0%Z, "a"); (100%Z, "b")] ++ [(250%Z, "c")]) !! i = Some (t1, a1) →
     ([(0%Z, "a"); (100%Z, "b")] ++ [(250%Z, "c")]) !! S i = Some (t2, a2) →
     (t2 < t1 + 200)%Z) ∧
  (250 + 200 ≤ 1000)%Z ∧
  debounce_until 200 ([(0%Z, "a"); (100%Z, "b")] ++ [(250%Z, "c")]) 1000
    = [(450%Z, "c")].
Proof.
  assert (H : ∀ i t1 a1 t2 a2,
     ([(0%Z, "a"); (100%Z, "b")] ++ [(250%Z, "c")]) !! i = Some (t1, a1) →
     ([(0%Z, "a"); (100%Z, "b")] ++ [(250%Z, "c")]) !! S i = Some (t2, a2) →
     (t2 < t1 + 200)%Z).
  { intros [|[|[|i]]] t1 a1 t2 a2 H1 H2; cbn in H1, H2; simplify_eq; lia. }
  split; [exact H|]. split; [lia|].
  apply (debounce_burst 200 [(0%Z, "a"); (100%Z, "b")] 250 "c" 1000 H). lia.
Defined.

(** *** The scroll listener behind [throttle] *)

Lemma handleScroll_spec (scrollY : Q) (nav : gset string) (c : string) :
  c ∈ handleScroll scrollY nav ↔
  if decide (c = "nav--scrolled") then (100 < scrollY)%Q else c ∈ nav.
Proof.
  unfold handleScroll, JS.gt, JS.of_Z, classList_add, classList_remove.
  destruct (Qle_bool scrollY (inject_Z 100)) eqn:E; cbn [negb].
  - apply Qle_bool_iff in E. case_decide as Hc.
    + subst. split; [set_solver|]. intros H. exfalso.
      apply (Qlt_not_le _ _ H). exact E.
    + set_solver.
  - assert (Hlt : (100 < scrollY)%Q).
    { apply Qnot_le_lt. intros H%Qle_bool_iff.
      change (Qle_bool scrollY (inject_Z 100) = true) in H. congruence. }
    case_decide as Hc; [subst|]; set_solver.
Qed.

Lemma handleScroll_last (y1 y2 : Q) (nav : gset string) :
  handleScroll y2 (handleScroll y1 nav) = handleScroll y2 nav.
Proof.
  apply set_eq. intros c. rewrite (handleScroll_spec y2), (handleScroll_spec y2 nav).
  destruct (decide (c = "nav--scrolled")) as [Hc|Hc]; [done|].
  rewrite handleScroll_spec. by rewrite decide_False.
Qed.

(** X12. The navigation bar behind the throttled scroll listener: after any
    scroll events it carries the scrolled class exactly when the offset of
    the last event that went through was above 100, its other classes
    untouched. An event dropped by the throttle leaves no trace, so the
    class can disagree with the offset the page ends on. *)
Theorem throttled_scroll_state (events : list (Z * Q)) (nav : gset string) (c : string) :
  c ∈ foldl (λ cl e, handleScroll e.2 cl) nav (run_throttled 100 events idle) ↔
  match last (run_throttled 100 events idle) with
  | Some (_, scrollY) =>
      if decide (c = "nav--scrolled") then (100 < scrollY)%Q else c ∈ nav
  | None => c ∈ nav
  end.
Proof.
  generalize (run_throttled 100 events idle). intros ran.
  induction ran as [|[t y] ran IH] using rev_ind; [done|].
  rewrite foldl_app, last_snoc. cbn [foldl snd].
  rewrite handleScroll_spec. case_decide; [done|].
  rewrite IH. by destruct (last ran) as [[t' y']|].
Qed.

(** Scrolling below the fold and back within 100 ms: the second event is
    dropped and the bar stays in its scrolled state at offset 0. *)
Lemma throttled_scroll_state_witness :
  run_throttled 100 [(0%Z, 150%Q); (60%Z, 0%Q)] idle = [(0%Z, 150%Q)] ∧
  "nav--scrolled" ∈
    foldl (λ cl e, handleScroll e.2 cl) ∅ (run_throttled 100 [(0%Z, 150%Q); (60%Z, 0%Q)] idle).
Proof.
  split; [reflexivity|].
  apply (proj2 (throttled_scroll_state [(0%Z, 150%Q); (60%Z, 0%Q)] ∅ "nav--scrolled")).
  cbn. reflexivity.
Defined.

End SignalsFacts.

(** ** Scroll reveal: the whole element *)

Module RevealMore.
Import JS Reveal.

Lemma reveal_idempotent (e : element) : reveal (reveal e) = reveal e.
Proof.
  destruct e as [cl st td]. unfold reveal. cbn [classes data_stagger transitionDelay].
  f_equal; [set_solver|]. by destruct (gt (default (of_Z 0) st) (of_Z 0)).
Qed.

Lemma on_entry_lookup (els : gmap nat element) (en : entry) (n : nat) :
  on_entry els en !! n =
  if bool_decide (target en = n) && isIntersecting en then reveal <$> els !! n else els !! n.
Proof.
  unfold on_entry. destruct (isIntersecting en); [|by rewrite andb_false_r].
  rewrite andb_true_r, lookup_alter. case_decide as Hn.
  - subst. by rewrite (bool_decide_eq_true_2 (target en = target en)).
  - by rewrite (bool_decide_eq_false_2 (target en = n)).
Qed.

Lemma fmap_reveal_idempotent (x : option element) :
  reveal <$> (reveal <$> x) = reveal <$> x.
Proof. destruct x as [e|]; [|done]. cbn. by rewrite reveal_idempotent. Qed.

Lemma foldl_on_entry_lookup (entries : list entry) (els : gmap nat element) (n : nat) :
  foldl on_entry els entries !! n =
  if reports n entries then reveal <$> els !! n else els !! n.
Proof.
  revert els. induction entries as [|en entries IH]; intros els; [done|].
  cbn [foldl reports existsb]. rewrite IH, on_entry_lookup.
  fold (reports n entries).
  destruct (bool_decide (target en = n) && isIntersecting en), (reports n entries);
    cbn [orb]; by rewrite ?fmap_reveal_idempotent.
Qed.

Lemma reports_unobserved (g : engine) (n : nat) (entries : list entry) :
  n ∉ observed g →
  reports n (List.filter (λ en, bool_decide (target en ∈ observed g)) entries) = false.
Proof.
  intros Hn. unfold reports. induction entries as [|en entries IH]; [done|].
  cbn [List.filter]. case_bool_decide as Hin; [|done]. cbn [existsb]. rewrite IH.
  rewrite (bool_decide_eq_false_2 (target en = n)); [done|]. by intros <-.
Qed.

Lemma deliver_lookup (g : engine) (entries : list entry) (n : nat) :
  elements (deliver g entries) !! n =
  if bool_decide (n ∈ observed g) && reports n entries
  then reveal <$> elements g !! n else elements g !! n.
Proof.
  unfold deliver, callback. cbn [elements]. rewrite foldl_on_entry_lookup.
  case_bool_decide as Hn; cbn [andb].
  - by rewrite RevealFacts.reports_filter.
  - by rewrite reports_unobserved.
Qed.

Lemma run_lookup (batches : list (list entry)) (g : engine) (n : nat) :
  elements (run g batches) !! n =
  if bool_decide (n ∈ observed g) && existsb (reports n) batches
  then reveal <$> elements g !! n else elements g !! n.
Proof.
  revert g. induction batches as [|b batches IH]; intros g.
  { cbn. by rewrite andb_false_r. }
  change (run g (b :: batches)) with (run (deliver g b) batches). cbn [existsb].
  rewrite IH, deliver_lookup.
  destruct (RevealFacts.deliver_observed g b) as (-> & _ & _).
  destruct (bool_decide (n ∈ observed g)), (reports n b), (existsb (reports n) batches);
    cbn [andb orb]; by rewrite ?fmap_reveal_idempotent.
Qed.

(** X13. The observer observes the elements of class scroll-reveal. The
    whole element after any batches of entries, flag, other classes,
    stagger and transition delay: an observed target that some batch
    reported as intersecting is as one run of the callback on it leaves
    it, however often and in whatever order it was reported; every other
    element of the page is as it was. So the repeated reports that the
    observer keeps sending, since it never unobserves, change nothing. *)
Theorem reveal_outcome (page : gmap nat element) (batches : list (list entry)) (n : nat) :
  (n ∈ observed (setupScrollReveal page)
   ↔ ∃ e, page !! n = Some e ∧ "scroll-reveal" ∈ classes e) ∧
  elements (run (setupScrollReveal page) batches) !! n =
  if bool_decide (n ∈ observed (setupScrollReveal page)) && existsb (reports n) batches
  then reveal <$> page !! n else page !! n.
Proof.
  split; [|apply run_lookup].
  unfold setupScrollReveal. cbn [observed]. rewrite elem_of_dom. split.
  - intros [e [He Hc]%map_lookup_filter_Some]. by exists e.
  - intros (e & He & Hc). exists e. by apply map_lookup_filter_Some.
Qed.

(** What one run of the callback leaves of an element: the visible class
    added to its classes, none removed; its stagger as it was; its
    transition delay as it was unless the stagger is above 0. *)
Lemma reveal_keeps_the_rest (e : element) :
  (∀ c, c ∈ classes (reveal e) ↔ c = "scroll-reveal--visible" ∨ c ∈ classes e) ∧
  data_stagger (reveal e) = data_stagger e ∧
  (gt (default (of_Z 0) (data_stagger e)) (of_Z 0) = false →
   transitionDelay (reveal e) = transitionDelay e).
Proof.
  split; [|split]; [|done|].
  - intros c. unfold reveal. cbn [classes]. set_solver.
  - intros H. unfold reveal. cbn [transitionDelay]. by rewrite H.
Qed.

End RevealMore.

(** ** Lazy images *)

Module LazyImagesFacts.
Import Reveal LazyImages.

Lemma on_entry_images (o : imageObserver) (en : entry) (n : nat) :
  images (on_entry o en) !! n =
  if bool_decide (target en = n) && isIntersecting en
  then load <$> images o !! n else images o !! n.
Proof.
  unfold on_entry. destruct (isIntersecting en); [|by rewrite andb_false_r].
  rewrite andb_true_r. cbn [images]. rewrite lookup_alter. case_decide as Hn.
  - subst. by rewrite (bool_decide_eq_true_2 (target en = target en)).
  - by rewrite (bool_decide_eq_false_2 (target en = n)).
Qed.

Lemma on_entry_observing (o : imageObserver) (en : entry) (n : nat) :
  n ∈ observing (on_entry o en) ↔
  n ∈ observing o ∧ bool_decide (target en = n) && isIntersecting en = false.
Proof.
  unfold on_entry. destruct (isIntersecting en).
  - rewrite andb_true_r. cbn [observing]. rewrite bool_decide_eq_false. set_solver.
  - rewrite andb_false_r. tauto.
Qed.

Lemma reported_cons (n : nat) (en : entry) (entries : list entry) :
  reported n (en :: entries) =
  if bool_decide (target en = n) && isIntersecting en
  then S (reported n entries) else reported n entries.
Proof.
  unfold reported. cbn [List.filter].
  by destruct (bool_decide (target en = n) && isIntersecting en).
Qed.

Lemma callback_images (entries : list entry) (o : imageObserver) (n : nat) :
  images (callback entries o) !! n
  = Nat.iter (reported n entries) (fmap load) (images o !! n).
Proof.
  revert o. induction entries as [|en entries IH]; intros o; [done|].
  change (callback (en :: entries) o) with (callback entries (on_entry o en)).
  rewrite IH, on_entry_images, reported_cons.
  destruct (bool_decide (target en = n) && isIntersecting en); [|done].
  by rewrite Nat.iter_succ_r.
Qed.

Lemma callback_observing (entries : list entry) (o : imageObserver) (n : nat) :
  n ∈ observing (callback entries o) ↔ n ∈ observing o ∧ reported n entries = 0%nat.
Proof.
  revert o. induction entries as [|en entries IH]; intros o; [cbn; tauto|].
  change (callback (en :: entries) o) with (callback entries (on_entry o en)).
  rewrite IH, on_entry_observing, reported_cons.
  destruct (bool_decide (target en = n) && isIntersecting en); naive_solver.
Qed.

Lemma reported_filter (obs : gset nat) (n : nat) (entries : list entry) :
  reported n (List.filter (λ en, bool_decide (target en ∈ obs)) entries)
  = if bool_decide (n ∈ obs) then reported n entries else 0%nat.
Proof.
  induction entries as [|en entries IH].
  { by case_bool_decide. }
  cbn [List.filter]. rewrite (reported_cons n en entries).
  destruct (decide (target en ∈ obs)) as [Hin|Hout].
  - rewrite (bool_decide_eq_true_2 (target en ∈ obs)) by done.
    rewrite reported_cons, IH.
    destruct (bool_decide (target en = n) && isIntersecting en) eqn:E; [|done].
    apply andb_true_iff in E as [Ht%bool_decide_eq_true _].
    rewrite <- Ht. by rewrite (bool_decide_eq_true_2 (target en ∈ obs)).
  - rewrite (bool_decide_eq_false_2 (target en ∈ obs)) by done. rewrite IH.
    destruct (bool_decide (target en = n) && isIntersecting en) eqn:E; [|done].
    apply andb_true_iff in E as [Ht%bool_decide_eq_true _].
    rewrite <- Ht. by rewrite (bool_decide_eq_false_2 (target en ∈ obs)).
Qed.

Lemma deliver_images (o : imageObserver) (entries : list entry) (n : nat) :
  images (deliver o entries) !! n
  = Nat.iter (if bool_decide (n ∈ observing o) then reported n entries else 0%nat)
      (fmap load) (images o !! n).
Proof. unfold deliver. by rewrite callback_images, reported_filter. Qed.

Lemma deliver_observing (o : imageObserver) (entries : list entry) (n : nat) :
  n ∈ observing (deliver o entries) ↔ n ∈ observing o ∧ reported n entries = 0%nat.
Proof.
  unfold deliver. rewrite callback_observing, reported_filter.
  case_bool_decide; naive_solver.
Qed.

(** An image that is not observed is out of reach of the callback. *)
Lemma run_unobserved (batches : list (list entry)) (o : imageObserver) (n : nat) :
  n ∉ observing o →
  images (run o batches) !! n = images o !! n ∧ n ∉ observing (run o batches).
Proof.
  revert o. induction batches as [|b batches IH]; intros o Hn; [done|].
  change (run o (b :: batches)) with (run (deliver o b) batches).
  assert (Hn' : n ∉ observing (deliver o b)).
  { rewrite deliver_observing. tauto. }
  destruct (IH _ Hn') as [-> Ho]. split; [|done].
  by rewrite deliver_images, bool_decide_eq_false_2.
Qed.

Lemma run_observed (batches : list (list entry)) (o : imageObserver) (n : nat) :
  n ∈ observing o →
  images (run o batches) !! n
    = Nat.iter (first_reported n batches) (fmap load) (images o !! n) ∧
  (n ∈ observing (run o batches) ↔ first_reported n batches = 0%nat).
Proof.
  revert o. induction batches as [|b batches IH]; intros o Hn; [done|].
  change (run o (b :: batches)) with (run (deliver o b) batches).
  cbn [first_reported]. destruct (Nat.eqb_spec (reported n b) 0) as [H0|Hpos].
  - assert (Hn' : n ∈ observing (deliver o b)) by (by rewrite deliver_observing).
    destruct (IH _ Hn') as [-> Ho]. split; [|done].
    by rewrite deliver_images, bool_decide_eq_true_2, H0.
  - assert (Hn' : n ∉ observing (deliver o b)).
    { rewrite deliver_observing. tauto. }
    destruct (run_unobserved batches _ n Hn') as [-> Ho]. split; [|tauto].
    by rewrite deliver_images, bool_decide_eq_true_2.
Qed.

Lemma reports_reported (n : nat) (entries : list entry) :
  reports n entries = negb (reported n entries =? 0)%nat.
Proof.
  induction entries as [|en entries IH]; [done|].
  rewrite reported_cons. cbn [reports existsb]. fold (reports n entries). rewrite IH.
  by destruct (bool_decide (target en = n) && isIntersecting en).
Qed.

Lemma first_reported_once (n : nat) (batches : list (list entry)) :
  (∀ b, b ∈ batches → (reported n b ≤ 1)%nat) →
  first_reported n batches = if existsb (reports n) batches then 1%nat else 0%nat.
Proof.
  induction batches as [|b batches IH]; intros Hb; [done|].
  cbn [first_reported existsb]. rewrite reports_reported.
  destruct (Nat.eqb_spec (reported n b) 0) as [H0|Hpos]; cbn [negb orb].
  - apply IH. intros b' Hb'. apply Hb. by right.
  - assert (reported n b ≤ 1)%nat by (apply Hb; by left). lia.
Qed.

Lemma setup_observing (page : gmap nat img) (n : nat) (i : img) (u : string) :
  page !! n = Some i → data_src i = Some u →
  n ∈ observing (setupPerformanceOptimizations page).
Proof.
  intros Hp Hu. unfold setupPerformanceOptimizations. cbn [observing].
  apply elem_of_dom. exists i. apply map_lookup_filter_Some. split; [done|].
  cbn. by rewrite Hu.
Qed.

(** X14. Lazy loading is one-shot. As long as no batch reports the same image
    twice, an image with a data-src address is untouched and observed
    until a batch reports it as intersecting; from then on its src is
    that address, its data-src is gone and it is no longer observed,
    whatever entries arrive later. *)
Theorem lazy_image_loads_once
    (page : gmap nat img) (batches : list (list entry)) (n : nat) (i : img) (u : string) :
  page !! n = Some i → data_src i = Some u →
  (∀ b, b ∈ batches → (reported n b ≤ 1)%nat) →
  images (run (setupPerformanceOptimizations page) batches) !! n
    = Some (if existsb (reports n) batches
            then {| src := Some u; data_src := None |} else i) ∧
  (n ∈ observing (run (setupPerformanceOptimizations page) batches)
   ↔ existsb (reports n) batches = false).
Proof.
  intros Hp Hu Hb. pose proof (setup_observing page n i u Hp Hu) as Hn.
  destruct (run_observed batches _ n Hn) as [Hi Ho].
  rewrite first_reported_once in Hi, Ho by done.
  change (images (setupPerformanceOptimizations page)) with page in Hi.
  rewrite Hp in Hi. rewrite Hi, Ho.
  destruct (existsb (reports n) batches); cbn; [|done].
  unfold load. rewrite Hu. done.
Qed.

Lemma lazy_image_loads_once_witness :
  two_images !! 0%nat = Some {| src := None; data_src := Some "/images/hero.jpg" |} ∧
  images (run (setupPerformanceOptimizations two_images)
            [[{| target := 0; isIntersecting := false |}];
             [{| target := 0; isIntersecting := true |}];
             [{| target := 0; isIntersecting := true |}]]) !! 0%nat
    = Some {| src := Some "/images/hero.jpg"; data_src := None |}.
Proof.
  assert (Hp : two_images !! 0%nat
               = Some {| src := None; data_src := Some "/images/hero.jpg" |})
    by reflexivity.
  split; [exact Hp|].
  refine (proj1 (lazy_image_loads_once two_images
            [[{| target := 0; isIntersecting := false |}];
             [{| target := 0; isIntersecting := true |}];
             [{| target := 0; isIntersecting := true |}]] 0%nat _ "/images/hero.jpg"
            Hp eq_refl _)).
  intros b Hb. repeat (apply elem_of_cons in Hb as [->|Hb]; [vm_compute; lia|]).
  by apply elem_of_nil in Hb.
Defined.

(** X15. The callback does not look at what it has already done within a
    batch: when the first batch that reports an image reports it twice,
    the second entry finds the data-src gone and writes the text
    undefined into src. *)
Theorem lazy_image_reported_twice
    (page : gmap nat img) (before after : list (list entry)) (b : list entry)
    (n : nat) (i : img) (u : string) :
  page !! n = Some i → data_src i = Some u →
  (∀ b', b' ∈ before → reported n b' = 0%nat) →
  (2 ≤ reported n b)%nat →
  images (run (setupPerformanceOptimizations page) (before ++ b :: after)) !! n
    = Some {| src := Some "undefined"; data_src := None |}.
Proof.
  intros Hp Hu Hbefore Hb. pose proof (setup_observing page n i u Hp Hu) as Hn.
  destruct (run_observed (before ++ b :: after) _ n Hn) as [-> _].
  change (images (setupPerformanceOptimizations page)) with page. rewrite Hp.
  assert (Hf : first_reported n (before ++ b :: after) = reported n b).
  { induction before as [|b' before IH]; cbn [app first_reported].
    - destruct (Nat.eqb_spec (reported n b) 0); [lia|done].
    - rewrite (Hbefore b') by (by left). cbn. apply IH.
      intros b'' Hb''. apply Hbefore. by right. }
  rewrite Hf. destruct (reported n b) as [|[|k]]; [lia|lia|].
  clear. induction k as [|k IH]; [done|].
  rewrite Nat.iter_succ, IH. done.
Qed.

Lemma lazy_image_reported_twice_witness :
  images (run (setupPerformanceOptimizations two_images)
            ([[{| target := 0; isIntersecting := false |}]]
             ++ [{| target := 0; isIntersecting := true |};
                 {| target := 0; isIntersecting := true |}] :: [])) !! 0%nat
    = Some {| src := Some "undefined"; data_src := None |}.
Proof.
  refine (lazy_image_reported_twice two_images
            [[{| target := 0; isIntersecting := false |}]] []
            [{| target := 0; isIntersecting := true |};
             {| target := 0; isIntersecting := true |}]
            0%nat _ "/images/hero.jpg" eq_refl eq_refl _ _).
  - intros b' Hb'. apply list_elem_of_singleton in Hb' as ->. reflexivity.
  - vm_compute. lia.
Defined.

(** X16. An image without a data-src is never observed, and no entry changes it. *)
Theorem plain_image_untouched
    (page : gmap nat img) (batches : list (list entry)) (n : nat) (i : img) :
  page !! n = Some i → data_src i = None →
  images (run (setupPerformanceOptimizations page) batches) !! n = Some i.
Proof.
  intros Hp Hu.
  assert (Hn : n ∉ observing (setupPerformanceOptimizations page)).
  { unfold setupPerformanceOptimizations. cbn [observing].
    intros [i' Hi']%elem_of_dom. apply map_lookup_filter_Some in Hi' as [Hi' Hs].
    rewrite Hp in Hi'. injection Hi' as <-. cbn in Hs. rewrite Hu in Hs.
    by destruct Hs. }
  destruct (run_unobserved batches _ n Hn) as [-> _]. done.
Qed.

Lemma plain_image_untouched_witness :
  images (run (setupPerformanceOptimizations two_images)
            [[{| target := 1; isIntersecting := true |}]]) !! 1%nat
    = Some {| src := Some "/images/logo.svg"; data_src := None |}.
Proof.
  exact (plain_image_untouched two_images [[{| target := 1; isIntersecting := true |}]]
           1%nat _ eq_refl eq_refl).
Defined.

End LazyImagesFacts.

(** ** Remote data hydration: failures and figures *)

Module HydrationMore.
Import JS Hydration.

Lemma truthy_get (v : value) (k : string) :
  truthy v = true → ∃ w, get v k = Some w.
Proof. destruct v; cbn; try done; eauto. Qed.

Lemma get_any (v : value) (k k' : string) (w : value) :
  get v k = Some w → ∃ w', get v k' = Some w'.
Proof. destruct v; cbn; try done; eauto. Qed.

Lemma gt_length (n : nat) : gt (of_Z (Z.of_nat (S n))) (of_Z 0) = true.
Proof.
  unfold gt, of_Z. apply negb_true_iff. apply not_true_is_false.
  intros H%Qle_bool_iff. rewrite <- Zle_Qle in H. lia.
Qed.

Section Host.
Variable ToNumber : value → number.
Variable ToText : value → string.

(** On an object that counts as true a guarded assignment returns: the
    text of the element is the field when the field counts as true. *)
Lemma assign_if_text (element : option nat) (obj : value) (k : string) (d : document) :
  truthy obj = true →
  ∃ d' v, assign_if ToText element obj k d = Returned d' ∧ get obj k = Some v ∧
          querySelector d' = querySelector d ∧
          ∀ m, text d' !! m =
               if bool_decide (element = Some m) && truthy v
               then Some (to_text ToText v) else text d !! m.
Proof.
  intros [v Hv]%(truthy_get _ k). unfold assign_if. rewrite Hv.
  destruct element as [e|].
  - destruct (truthy v) eqn:Ht.
    + exists (set_text e (to_text ToText v) d), v. repeat split; try done.
      intros m. rewrite Ht. cbn [text set_text]. destruct (decide (e = m)) as [->|Hne].
      * by rewrite lookup_insert_eq, bool_decide_eq_true_2.
      * rewrite lookup_insert_ne, bool_decide_eq_false_2 by congruence. done.
    + exists d, v. repeat split; try done; intros m; by rewrite Ht, andb_false_r.
  - exists d, v. repeat split; try done; intros m;
      by rewrite bool_decide_eq_false_2.
Qed.

Lemma three_assignments_text (obj : value) (d : document) (e1 e2 e3 : option nat)
    (k1 k2 k3 : string) :
  truthy obj = true →
  ∃ d' v1 v2 v3,
    and_then (assign_if ToText e1 obj k1 d) (λ d,
    and_then (assign_if ToText e2 obj k2 d) (λ d,
    assign_if ToText e3 obj k3 d)) = Returned d' ∧
    get obj k1 = Some v1 ∧ get obj k2 = Some v2 ∧ get obj k3 = Some v3 ∧
    ∀ m, text d' !! m =
         if bool_decide (e3 = Some m) && truthy v3 then Some (to_text ToText v3)
         else if bool_decide (e2 = Some m) && truthy v2 then Some (to_text ToText v2)
         else if bool_decide (e1 = Some m) && truthy v1 then Some (to_text ToText v1)
         else text d !! m.
Proof.
  intros Ht.
  destruct (assign_if_text e1 obj k1 d Ht) as (d1 & v1 & -> & Hv1 & _ & H1).
  destruct (assign_if_text e2 obj k2 d1 Ht) as (d2 & v2 & H2' & Hv2 & _ & H2).
  destruct (assign_if_text e3 obj k3 d2 Ht) as (d3 & v3 & H3' & Hv3 & _ & H3).
  exists d3, v1, v2, v3. cbn [and_then]. rewrite H2'. cbn [and_then]. rewrite H3'.
  repeat split; try done. intros m. by rewrite H3, H2, H1.
Qed.

Lemma updateAchievements_threw (achievements : value) (d d' : document) (e : string) :
  updateAchievements ToNumber ToText achievements d = Threw e d' → e = "TypeError" ∧ d' = d.
Proof.
  unfold updateAchievements. repeat case_match; try done; by intros [= <- <-].
Qed.

Lemma when_present_returns (data : value) (k : string)
    (update : value → document → outcome) (d : document) :
  (∀ v d, truthy v = true → ∃ d', update v d = Returned d') →
  (∃ w, get data k = Some w) →
  ∃ d', when_present data k update d = Returned d'.
Proof.
  intros Hu [w Hw]. unfold when_present. rewrite Hw.
  destruct (truthy w) eqn:Ht; [by apply Hu|by exists d].
Qed.

Lemma updateBenefits_returns (benefits : value) (d : document) :
  truthy benefits = true → ∃ d', updateBenefits ToText benefits d = Returned d'.
Proof.
  intros Ht. unfold updateBenefits.
  destruct (three_assignments_text benefits d
              (querySelector d (DataBenefit "cost")) (querySelector d (DataBenefit "energy"))
              (querySelector d (DataBenefit "carbon"))
              "cost_reduction" "energy_reduction" "carbon_reduction" Ht)
    as (d' & ? & ? & ? & H & _). by exists d'.
Qed.

Lemma updateMarketData_returns (marketData : value) (d : document) :
  truthy marketData = true → ∃ d', updateMarketData ToText marketData d = Returned d'.
Proof.
  intros Ht. unfold updateMarketData.
  destruct (three_assignments_text marketData d
              (querySelector d (DataMarket "tam")) (querySelector d (DataMarket "sam"))
              (querySelector d (DataMarket "som"))
              "total_addressable_market" "serviceable_addressable_market"
              "serviceable_obtainable_market" Ht)
    as (d' & ? & ? & ? & H & _). by exists d'.
Qed.

(** Only the first step of [populateCompanyData] can throw, and it throws
    before it writes. *)
Lemma populateCompanyData_threw (data : value) (d d' : document) (e : string) :
  populateCompanyData ToNumber ToText data d = Threw e d' → e = "TypeError" ∧ d' = d.
Proof.
  unfold populateCompanyData.
  destruct (when_present data "achievements" (updateAchievements ToNumber ToText) d)
    as [d1|e1 d1] eqn:H1; cbn [and_then].
  - assert (Hg : ∃ w, get data "achievements" = Some w).
    { unfold when_present in H1. destruct (get data "achievements"); [eauto|done]. }
    destruct Hg as [w Hw].
    destruct (when_present_returns data "benefits" (updateBenefits ToText) d1
                updateBenefits_returns (get_any _ _ "benefits" _ Hw)) as [d2 ->].
    cbn [and_then].
    destruct (when_present_returns data "market_data" (updateMarketData ToText) d2
                updateMarketData_returns (get_any _ _ "market_data" _ Hw)) as [d3 ->].
    done.
  - intros [= <- <-]. unfold when_present in H1.
    destruct (get data "achievements") as [a|]; [|by injection H1 as <- <-].
    destruct (truthy a); [|done]. by apply updateAchievements_threw in H1.
Qed.

(** X17. Hydration fails before it writes. [loadCompanyData] logs at most one
    warning, and when it logs one the page is as it was: nothing is ever
    left half written. What throws in [populateCompanyData] is the read of
    a field of a payload that is null, or of the title of a first
    achievement that is null or undefined, both before the first write. *)
Theorem hydration_fails_before_writing (f : fetched) (d : document) :
  (length (loadCompanyData ToNumber ToText f d).2 ≤ 1)%nat ∧
  ((loadCompanyData ToNumber ToText f d).2 ≠ [] →
   (loadCompanyData ToNumber ToText f d).1 = d) ∧
  (∀ data e d', populateCompanyData ToNumber ToText data d = Threw e d' →
                e = "TypeError" ∧ d' = d).
Proof.
  split; [|split].
  - destruct f as [error|[] [data|]]; cbn [loadCompanyData]; try (cbn; lia).
    destruct (populateCompanyData ToNumber ToText data d); cbn; lia.
  - destruct f as [error|[] [data|]]; cbn [loadCompanyData]; try done.
    destruct (populateCompanyData ToNumber ToText data d) as [d1|e d1] eqn:Hp; [done|].
    intros _. by apply populateCompanyData_threw in Hp as [_ ->].
  - intros data e d'. apply populateCompanyData_threw.
Qed.

(** X18. A figure of [updateBenefits]: when the element is on the page, and is
    not the element of another figure, it shows the field of the payload
    if the field counts as true and keeps its text otherwise. A reduction
    of 0, an empty text or a missing field leaves the figure as it was. *)
Theorem updateBenefits_figure
    (benefits : value) (d : document) (sel fld : string) (n : nat) :
  truthy benefits = true →
  (sel, fld) ∈ [("cost", "cost_reduction"); ("energy", "energy_reduction");
                ("carbon", "carbon_reduction")] →
  querySelector d (DataBenefit sel) = Some n →
  (∀ sel', sel' ≠ sel → querySelector d (DataBenefit sel') ≠ Some n) →
  ∃ d' v, updateBenefits ToText benefits d = Returned d' ∧ get benefits fld = Some v ∧
          text d' !! n = if truthy v then Some (to_text ToText v) else text d !! n.
Proof.
  intros Ht Hin Hn Hother. unfold updateBenefits.
  destruct (three_assignments_text benefits d
              (querySelector d (DataBenefit "cost")) (querySelector d (DataBenefit "energy"))
              (querySelector d (DataBenefit "carbon"))
              "cost_reduction" "energy_reduction" "carbon_reduction" Ht)
    as (d' & v1 & v2 & v3 & -> & Hv1 & Hv2 & Hv3 & Htext).
  exists d'. rewrite Htext.
  repeat (apply elem_of_cons in Hin as [[= -> ->]|Hin]).
  - exists v1. rewrite (bool_decide_eq_false_2 (_ = Some n)) by (by apply Hother).
    rewrite (bool_decide_eq_false_2 (_ = Some n)) by (by apply Hother).
    rewrite bool_decide_eq_true_2 by done. done.
  - exists v2. rewrite (bool_decide_eq_false_2 (_ = Some n)) by (by apply Hother).
    rewrite bool_decide_eq_true_2 by done. cbn [andb].
    destruct (truthy v2); [done|].
    by rewrite (bool_decide_eq_false_2 (_ = Some n)) by (by apply Hother).
  - exists v3. rewrite bool_decide_eq_true_2 by done. cbn [andb].
    destruct (truthy v3); [done|].
    rewrite (bool_decide_eq_false_2 (_ = Some n)) by (by apply Hother).
    by rewrite (bool_decide_eq_false_2 (_ = Some n)) by (by apply Hother).
  - by apply elem_of_nil in Hin.
Qed.

(** X19. The same for the three market figures of [updateMarketData]. *)
Theorem updateMarketData_figure
    (marketData : value) (d : document) (sel fld : string) (n : nat) :
  truthy marketData = true →
  (sel, fld) ∈ [("tam", "total_addressable_market");
                ("sam", "serviceable_addressable_market");
                ("som", "serviceable_obtainable_market")] →
  querySelector d (DataMarket sel) = Some n →
  (∀ sel', sel' ≠ sel → querySelector d (DataMarket sel') ≠ Some n) →
  ∃ d' v, updateMarketData ToText marketData d = Returned d' ∧
          get marketData fld = Some v ∧
          text d' !! n = if truthy v then Some (to_text ToText v) else text d !! n.
Proof.
  intros Ht Hin Hn Hother. unfold updateMarketData.
  destruct (three_assignments_text marketData d
              (querySelector d (DataMarket "tam")) (querySelector d (DataMarket "sam"))
              (querySelector d (DataMarket "som"))
              "total_addressable_market" "serviceable_addressable_market"
              "serviceable_obtainable_market" Ht)
    as (d' & v1 & v2 & v3 & -> & Hv1 & Hv2 & Hv3 & Htext).
  exists d'. rewrite Htext.
  repeat (apply elem_of_cons in Hin as [[= -> ->]|Hin]).
  - exists v1. rewrite (bool_decide_eq_false_2 (_ = Some n)) by (by apply Hother).
    rewrite (bool_decide_eq_false_2 (_ = Some n)) by (by apply Hother).
    rewrite bool_decide_eq_true_2 by done. done.
  - exists v2. rewrite (bool_decide_eq_false_2 (_ = Some n)) by (by apply Hother).
    rewrite bool_decide_eq_true_2 by done. cbn [andb].
    destruct (truthy v2); [done|].
    by rewrite (bool_decide_eq_false_2 (_ = Some n)) by (by apply Hother).
  - exists v3. rewrite bool_decide_eq_true_2 by done. cbn [andb].
    destruct (truthy v3); [done|].
    rewrite (bool_decide_eq_false_2 (_ = Some n)) by (by apply Hother).
    by rewrite (bool_decide_eq_false_2 (_ = Some n)) by (by apply Hother).
  - by apply elem_of_nil in Hin.
Qed.

(** X20. Of the achievements only the first is read: the rest of the array
    changes nothing, and an empty array writes nothing. *)
Theorem updateAchievements_first_only (a : value) (rest : list value) (d : document) :
  updateAchievements ToNumber ToText (VArr (a :: rest)) d
    = updateAchievements ToNumber ToText (VArr [a]) d ∧
  updateAchievements ToNumber ToText (VArr []) d = Returned d.
Proof.
  unfold updateAchievements. cbn [get String.eqb Ascii.eqb Bool.eqb to_number first head default length].
  split.
  - by rewrite (gt_length (length rest)), (gt_length 0).
  - by destruct (querySelector d DataAchievements).
Qed.

End Host.

Lemma sample_page_figures (sel sel' : string) (n : nat) :
  querySelector sample_page (DataBenefit sel) = Some n → sel' ≠ sel →
  querySelector sample_page (DataBenefit sel') ≠ Some n.
Proof.
  cbn. intros H Hne.
  destruct (String.eqb_spec sel "cost"), (String.eqb_spec sel "energy"),
    (String.eqb_spec sel "carbon"), (String.eqb_spec sel' "cost"),
    (String.eqb_spec sel' "energy"), (String.eqb_spec sel' "carbon");
    congruence.
Qed.

Lemma sample_page_markets (sel sel' : string) (n : nat) :
  querySelector sample_page (DataMarket sel) = Some n → sel' ≠ sel →
  querySelector sample_page (DataMarket sel') ≠ Some n.
Proof.
  cbn. intros H Hne.
  destruct (String.eqb_spec sel "tam"), (String.eqb_spec sel "sam"),
    (String.eqb_spec sel "som"), (String.eqb_spec sel' "tam"),
    (String.eqb_spec sel' "sam"), (String.eqb_spec sel' "som");
    congruence.
Qed.

Lemma updateBenefits_figure_witness :
  ∃ d' v,
    updateBenefits plain_text (VObj [("cost_reduction", VNum (of_Z 0));
                                     ("energy_reduction", VStr "85%")]) sample_page
      = Returned d' ∧
    get (VObj [("cost_reduction", VNum (of_Z 0)); ("energy_reduction", VStr "85%")])
      "cost_reduction" = Some v ∧
    text d' !! 2%nat = if truthy v then Some (to_text plain_text v)
                       else text sample_page !! 2%nat.
Proof.
  apply (updateBenefits_figure plain_text
           (VObj [("cost_reduction", VNum (of_Z 0)); ("energy_reduction", VStr "85%")])
           sample_page "cost" "cost_reduction" 2%nat).
  - reflexivity.
  - by left.
  - reflexivity.
  - intros sel' Hne. by apply (sample_page_figures "cost").
Defined.

Lemma updateMarketData_figure_witness :
  ∃ d' v,
    updateMarketData plain_text (VObj [("serviceable_addressable_market", VStr "$750M")])
      sample_page = Returned d' ∧
    get (VObj [("serviceable_addressable_market", VStr "$750M")])
      "serviceable_addressable_market" = Some v ∧
    text d' !! 6%nat = if truthy v then Some (to_text plain_text v)
                       else text sample_page !! 6%nat.
Proof.
  apply (updateMarketData_figure plain_text
           (VObj [("serviceable_addressable_market", VStr "$750M")])
           sample_page "sam" "serviceable_addressable_market" 6%nat).
  - reflexivity.
  - right. by left.
  - reflexivity.
  - intros sel' Hne. by apply (sample_page_markets "sam").
Defined.

Lemma hydration_fails_before_writing_witness :
  (loadCompanyData plain_number plain_text
     (Response true (Some (VObj [("achievements", VArr [VNull])]))) sample_page).2 ≠ [] ∧
  (loadCompanyData plain_number plain_text
     (Response true (Some (VObj [("achievements", VArr [VNull])]))) sample_page).1
    = sample_page.
Proof.
  assert (H : (loadCompanyData plain_number plain_text
     (Response true (Some (VObj [("achievements", VArr [VNull])]))) sample_page).2 ≠ []).
  { vm_compute. discriminate. }
  split; [exact H|].
  exact (proj1 (proj2 (hydration_fails_before_writing plain_number plain_text
           (Response true (Some (VObj [("achievements", VArr [VNull])]))) sample_page)) H).
Defined.

End HydrationMore.

(** ** All notifications of a page *)

Module TrayFacts.
Import Toast Tray ToastFacts.

Lemma orderly_fresh : orderly fresh_page.
Proof.
  split; [done|]. split.
  - intros n Hn. cbn in Hn. lia.
  - intros n _. split; [apply not_elem_of_nil | done].
Qed.

Lemma show_orderly (message : string) (type : option string) (h : host) :
  orderly h → orderly (showNotification message type h).
Proof.
  intros (Hu & Hs & Hfree). split; [done|]. split.
  - intros n Hn. change (next_node (showNotification message type h))
      with (S (next_node h)) in Hn.
    change (now (showNotification message type h)) with (now h).
    destruct (decide (n = next_node h)) as [->|Hne].
    + exists (now h). split; [lia|].
      apply (show_in_time message type h). apply Hfree. lia.
    + destruct (Hs n) as (t0 & Ht0 & Hn0); [lia|]. exists t0. split; [done|].
      by apply show_preserves.
  - intros n Hn. change (next_node (showNotification message type h))
      with (S (next_node h)) in Hn.
    destruct (Hfree n) as [Hb Ht]; [lia|]. split.
    + unfold showNotification, setTimeout. cbn [body].
      rewrite elem_of_app, list_elem_of_singleton. intros [?|?]; [done|lia].
    + unfold showNotification, setTimeout. cbn [timers].
      rewrite timers_of_snoc_other; [done|]. cbn. lia.
Qed.

(** The timer that fires belongs to a notification created before, and a
    removal finds its element in the body. *)
Lemma fired_timer (h : host) (t : timer) (rest : list timer) :
  orderly h → pick (timers h) = Some (t, rest) →
  (node_of (action t) < next_node h)%nat ∧
  (∀ m, action t = Detach m → m ∈ body h).
Proof.
  intros (Hu & Hs & Hfree) Hp.
  assert (Hin : t ∈ timers_of (node_of (action t)) (timers h)).
  { apply list_elem_of_filter. split; [done|]. apply (pick_elem _ _ _ Hp). by left. }
  assert (Hlt : (node_of (action t) < next_node h)%nat).
  { destruct (decide (node_of (action t) < next_node h)%nat) as [|Hge]; [done|].
    destruct (Hfree (node_of (action t))) as [_ Hnil]; [lia|].
    rewrite Hnil in Hin. by apply elem_of_nil in Hin. }
  split; [done|]. intros m Hm.
  destruct (Hs _ Hlt) as (t0 & _ & _ & Hph). rewrite Hm in Hin, Hph. cbn [node_of] in Hin, Hph.
  destruct Hph as [[(_ & _ & Ht) _]|[[(Hb & _ & _) _]|[(_ & Ht) _]]]; [|done|].
  - rewrite Ht in Hin. apply list_elem_of_singleton in Hin. rewrite Hin in Hm. done.
  - rewrite Ht in Hin. by apply elem_of_nil in Hin.
Qed.

Lemma fire_orderly (h : host) (t : timer) (rest : list timer) :
  orderly h → pick (timers h) = Some (t, rest) →
  orderly (run_callback (action t) (set_clock (now h `max` due t)%Z rest h)).
Proof.
  intros Ho Hp. destruct (fired_timer h t rest Ho Hp) as [Hlt Hbody].
  destruct Ho as (Hu & Hs & Hfree). split; [|split].
  - destruct (action t) as [m|m] eqn:Ha; [done|].
    unfold run_callback, removeChild. cbn [body set_clock].
    by rewrite bool_decide_eq_true_2 by (by apply Hbody).
  - intros n Hn. rewrite run_callback_next_node in Hn. cbn [next_node set_clock] in Hn.
    destruct (Hs n Hn) as (t0 & Ht0 & Hn0). exists t0.
    rewrite run_callback_now. cbn [now set_clock]. split; [lia|].
    by apply fire_preserves.
  - intros n Hn. rewrite run_callback_next_node in Hn. cbn [next_node set_clock] in Hn.
    assert (Hne : node_of (action t) ≠ n) by lia.
    destruct (run_callback_other n (action t) (set_clock (now h `max` due t)%Z rest h) Hne)
      as (_ & _ & Hb & _ & Ht).
    cbn [body timers set_clock] in Hb, Ht.
    destruct (Hfree n Hn) as [Hb0 Ht0]. split.
    + by rewrite Hb.
    + by rewrite Ht, (pick_other n _ _ _ Hp Hne).
Qed.

Lemma idle_orderly (until : Z) (h : host) :
  orderly h → (∀ u, u ∈ timers h → until < due u)%Z →
  orderly (set_clock (now h `max` until)%Z (timers h) h).
Proof.
  intros (Hu & Hs & Hfree) Hq. split; [done|]. split; [|done].
  intros n Hn. destruct (Hs n Hn) as (t0 & Ht0 & Hn0). exists t0.
  cbn [now set_clock]. split; [lia|]. by apply idle_preserves.
Qed.

Lemma advance_fuel_orderly (fuel : nat) (until : Z) (h : host) :
  orderly h → orderly (advance_fuel fuel until h).
Proof.
  revert h. induction fuel as [|fuel IH]; intros h Ho; [done|].
  cbn [advance_fuel]. destruct (pick (timers h)) as [[t rest]|] eqn:Hp.
  - destruct (Z.leb_spec (due t) until) as [Hle|Hgt].
    + by apply IH, fire_orderly.
    + apply idle_orderly; [done|]. intros u Hu.
      apply (pick_min _ _ _ Hp) in Hu. lia.
  - apply idle_orderly; [done|]. apply pick_None in Hp as ->.
    by intros u ?%elem_of_nil.
Qed.

Lemma advance_fuel_next_node (fuel : nat) (until : Z) (h : host) :
  next_node (advance_fuel fuel until h) = next_node h.
Proof.
  revert h. induction fuel as [|fuel IH]; intros h; [done|].
  cbn [advance_fuel]. destruct (pick (timers h)) as [[t rest]|]; [|done].
  destruct (due t <=? until)%Z; [|done]. by rewrite IH, run_callback_next_node.
Qed.

Lemma play_orderly (es : list event) (h : host) : orderly h → orderly (play h es).
Proof.
  revert h. induction es as [|e es IH]; intros h Ho; [done|].
  change (play h (e :: es)) with (play (play_event h e) es). apply IH.
  destruct e as [m ty|ms]; cbn [play_event].
  - by apply show_orderly.
  - by apply advance_fuel_orderly.
Qed.

(** After 5300 ms without a new notification nothing is left. *)
Lemma calm_clears (h : host) (ms : N) :
  orderly h → (5300 ≤ Z.of_N ms)%Z →
  body (play_event h (Elapse ms)) = [] ∧ timers (play_event h (Elapse ms)) = [].
Proof.
  intros Ho Hms. cbn [play_event]. unfold advance.
  set (h' := advance_fuel (S (rounds (timers h))) (now h + Z.of_N ms) h).
  assert (Ho' : orderly h') by (by apply advance_fuel_orderly).
  destruct (advance_fuel_quiet (S (rounds (timers h))) (now h + Z.of_N ms) h)
    as [Hnow Hq]; [lia|lia|]. fold h' in Hnow, Hq.
  assert (Hnext : next_node h' = next_node h) by apply advance_fuel_next_node.
  assert (Hgone : ∀ n, (n ∉ body h') ∧ timers_of n (timers h') = []).
  { intros n. destruct (decide (n < next_node h)%nat) as [Hlt|Hge].
    - destruct Ho as (_ & Hs & _). destruct (Hs n Hlt) as (t0 & Ht0 & Hn0).
      apply (advance_fuel_preserves n t0 (S (rounds (timers h))) (now h + Z.of_N ms))
        in Hn0.
      fold h' in Hn0. destruct Hn0 as [_ Hph].
      destruct Hph as [[_ Hc]|[[(_ & _ & Ht) _]|[Hph _]]]; [lia| |done].
      apply timers_of_elem in Ht as [Hin _]. apply Hq in Hin. cbn [due] in Hin. lia.
    - destruct Ho' as (_ & _ & Hfree). apply Hfree. lia. }
  split.
  - apply elem_of_nil_inv. intros n. apply Hgone.
  - apply elem_of_nil_inv. intros t Hin.
    destruct (Hgone (node_of (action t))) as [_ Ht].
    assert (Hin' : t ∈ timers_of (node_of (action t)) (timers h')).
    { by apply list_elem_of_filter. }
    rewrite Ht in Hin'. by apply elem_of_nil in Hin'.
Qed.

(** X21. The page as a whole, from its load on, whatever notifications are
    shown and however time passes: no removal ever fails, since a
    removal timer always finds its element in the body; and once 5300 ms
    have passed without a new notification the body holds none and no
    timer is pending. Notifications do not pile up. *)
Theorem notifications_all_removed (es : list event) (ms : N) :
  uncaught (play fresh_page es) = [] ∧
  ((5300 ≤ Z.of_N ms)%Z →
   body (play fresh_page (es ++ [Elapse ms])) = [] ∧
   timers (play fresh_page (es ++ [Elapse ms])) = []).
Proof.
  pose proof (play_orderly es fresh_page orderly_fresh) as Ho.
  split; [apply Ho|]. intros Hms.
  unfold play. rewrite foldl_app. cbn [foldl]. by apply calm_clears.
Qed.

Lemma notifications_all_removed_witness :
  (5300 ≤ Z.of_N 5300)%Z ∧
  body (play fresh_page
          ([Show sent_message (Some "success"); Elapse 100; Show "Saved" None]
           ++ [Elapse 5300])) = [] ∧
  timers (play fresh_page
            ([Show sent_message (Some "success"); Elapse 100; Show "Saved" None]
             ++ [Elapse 5300])) = [].
Proof.
  assert (H : (5300 ≤ Z.of_N 5300)%Z) by lia.
  split; [exact H|].
  exact (proj2 (notifications_all_removed
                  [Show sent_message (Some "success"); Elapse 100; Show "Saved" None]
                  5300) H).
Defined.

End TrayFacts.

(** ** Contact form *)

Module ContactFacts.
Import Nav Contact.

Lemma run_due_pending (f : form) (last t : Z) (T : string) (cl : gset string)
    (sh : list (Z * string * string)) (r : nat) :
  pending f last T cl sh r → (last + 2000 ≤ t)%Z →
  resting (run_due t f) T cl (sh ++ [note last]) (S r).
Proof.
  intros (b & Hb & Ht & Hd & Hc & Hw & Hs & Hr & Hu) Hle.
  unfold run_due. rewrite Hw. cbn [List.filter due].
  rewrite (proj2 (Z.leb_le _ _) Hle). cbn [negb foldl].
  unfold resume. cbn [submitButton waiting shown resets unhandled due originalText].
  rewrite Hb. cbn [fmap option_fmap option_map].
  eexists. split; [reflexivity|]. cbn [textContent disabled classList].
  repeat split; try done; try congruence.
  - unfold classList_remove in *. set_solver.
  - unfold classList_remove in *. set_solver.
  - intros [Hne Hin]. unfold classList_remove. apply elem_of_difference.
    split; [apply Hc; by right | set_solver].
  - by rewrite Hs.
  - by rewrite Hr.
Qed.

Lemma on_submit_resting (f : form) (t : Z) (T : string) (cl : gset string)
    (sh : list (Z * string * string)) (r : nat) :
  resting f T cl sh r → pending (on_submit t f) t T cl sh r.
Proof.
  intros (b & Hb & Ht & Hd & Hc & Hw & Hs & Hr & Hu).
  unfold on_submit. rewrite Hb. eexists. split; [reflexivity|].
  cbn [textContent disabled classList waiting shown resets unhandled].
  rewrite Hw, Ht. repeat split; try done.
  - unfold classList_add. intros [->%elem_of_singleton|Hin%Hc]%elem_of_union; tauto.
  - unfold classList_add. intros [->|Hin]; [set_solver|].
    destruct (decide (c = "btn--loading")) as [->|Hne]; [set_solver|].
    apply elem_of_union. right. by apply Hc.
Qed.

Lemma settle_spaced (times : list Z) (f : form) (last until : Z) (T : string)
    (cl : gset string) (sh : list (Z * string * string)) (r : nat) :
  pending f last T cl sh r →
  (∀ i t1 t2, (last :: times) !! i = Some t1 → (last :: times) !! S i = Some t2 →
              (t1 + 2000 ≤ t2)%Z) →
  (∀ t, t ∈ last :: times → (t + 2000 ≤ until)%Z) →
  resting (settle times until f) T cl (sh ++ note last :: (note <$> times))
    (r + 1 + length times).
Proof.
  revert f last sh r. induction times as [|t times IH]; intros f last sh r Hp Hgap Hu.
  - unfold settle. cbn [run fmap list_fmap length].
    replace (r + 1 + 0)%nat with (S r) by lia.
    apply run_due_pending; [done|]. apply Hu. by left.
  - unfold settle. cbn [run].
    assert (Hle : (last + 2000 ≤ t)%Z) by (by apply (Hgap 0%nat)).
    pose proof (on_submit_resting _ t _ _ _ _ (run_due_pending _ _ t _ _ _ _ Hp Hle)) as Hp'.
    specialize (IH _ t _ _ Hp').
    cbn [fmap list_fmap length]. rewrite <- app_assoc in IH. cbn [app] in IH.
    replace (r + 1 + S (length times))%nat with (S r + 1 + length times)%nat by lia.
    apply IH.
    + intros i. apply (Hgap (S i)).
    + intros t' Ht'. apply Hu. by right.
Qed.

(** X22. Submissions that do not overlap, each at least 2000 ms after the one
    before: once the last is 2000 ms old the button has its text back,
    is enabled and has lost the loading class, its other classes as they
    were; each submission has shown the success notification 2000 ms
    after its submit, in order, and reset the form; no handler waits. *)
Theorem submit_round_trip (b : button) (t : Z) (times : list Z) (until : Z) :
  (∀ i t1 t2, (t :: times) !! i = Some t1 → (t :: times) !! S i = Some t2 →
              (t1 + 2000 ≤ t2)%Z) →
  (∀ t', t' ∈ t :: times → (t' + 2000 ≤ until)%Z) →
  ∃ b', submitButton (settle (t :: times) until (form_with (Some b))) = Some b' ∧
        textContent b' = textContent b ∧ disabled b' = false ∧
        (∀ c, c ∈ classList b' ↔ c ≠ "btn--loading" ∧ c ∈ classList b) ∧
        waiting (settle (t :: times) until (form_with (Some b))) = [] ∧
        shown (settle (t :: times) until (form_with (Some b))) = note <$> t :: times ∧
        resets (settle (t :: times) until (form_with (Some b))) = S (length times) ∧
        unhandled (settle (t :: times) until (form_with (Some b))) = [].
Proof.
  intros Hgap Hu.
  assert (Hp : pending (on_submit t (run_due t (form_with (Some b)))) t
                 (textContent b) (classList b) [] 0).
  { eexists. split; [reflexivity|]. cbn. repeat split; try done.
    - unfold classList_add. intros [->%elem_of_singleton|Hin]%elem_of_union; tauto.
    - unfold classList_add. set_solver. }
  pose proof (settle_spaced times _ t until _ _ _ _ Hp Hgap Hu) as (b' & H).
  exists b'. replace (0 + 1 + length times)%nat with (S (length times)) in H by lia.
  exact H.
Qed.

Lemma submit_round_trip_witness :
  ∃ b', submitButton (settle [0; 2000; 7000]%Z 9000 (form_with (Some send_button)))
          = Some b' ∧
        textContent b' = "Send message" ∧ disabled b' = false ∧
        (∀ c, c ∈ classList b' ↔ c ≠ "btn--loading" ∧ c ∈ classList send_button) ∧
        waiting (settle [0; 2000; 7000]%Z 9000 (form_with (Some send_button))) = [] ∧
        shown (settle [0; 2000; 7000]%Z 9000 (form_with (Some send_button)))
          = note <$> [0; 2000; 7000]%Z ∧
        resets (settle [0; 2000; 7000]%Z 9000 (form_with (Some send_button))) = 3%nat ∧
        unhandled (settle [0; 2000; 7000]%Z 9000 (form_with (Some send_button))) = [].
Proof.
  apply (submit_round_trip send_button 0 [2000; 7000]%Z 9000).
  - intros [|[|[|i]]] t1 t2 H1 H2; cbn in H1, H2; simplify_eq; lia.
  - intros t' Ht'. repeat (apply elem_of_cons in Ht' as [->|Ht']; [lia|]).
    by apply elem_of_nil in Ht'.
Defined.

(** *** Overlapping submissions *)

Lemma filter_none {A : Type} (P : A → bool) (l : list A) :
  (∀ x, x ∈ l → P x = false) → List.filter P l = [].
Proof.
  induction l as [|x l IH]; intros H; [done|]. cbn [List.filter].
  rewrite (H x) by (by left). apply IH. intros y Hy. apply H. by right.
Qed.

Lemma filter_all {A : Type} (P : A → bool) (l : list A) :
  (∀ x, x ∈ l → P x = true) → List.filter P l = l.
Proof.
  induction l as [|x l IH]; intros H; [done|]. cbn [List.filter].
  rewrite (H x) by (by left). f_equal. apply IH. intros y Hy. apply H. by right.
Qed.

Lemma run_due_none (t : Z) (f : form) :
  (∀ s, s ∈ waiting f → (t < due s)%Z) → run_due t f = f.
Proof.
  intros H. unfold run_due.
  rewrite (filter_none (λ s, (due s <=? t)%Z)), (filter_all (λ s, negb (due s <=? t)%Z)).
  - by destruct f.
  - intros s Hs. apply negb_true_iff, Z.leb_gt. by apply H.
  - intros s Hs. apply Z.leb_gt. by apply H.
Qed.

Lemma run_due_all (t : Z) (f : form) :
  (∀ s, s ∈ waiting f → (due s ≤ t)%Z) →
  run_due t f = foldl resume
                  {| submitButton := submitButton f; waiting := []; shown := shown f;
                     resets := resets f; unhandled := unhandled f |} (waiting f).
Proof.
  intros H. unfold run_due.
  rewrite (filter_all (λ s, (due s <=? t)%Z)), (filter_none (λ s, negb (due s <=? t)%Z)).
  - done.
  - intros s Hs. apply negb_false_iff, Z.leb_le. by apply H.
  - intros s Hs. apply Z.leb_le. by apply H.
Qed.

(** With the button already reading Sending, submits that come before
    any timeout is due only add handlers, each holding that text. *)
Lemma run_overlapping (times : list Z) (f : form) (b : button) :
  submitButton f = Some b → textContent b = "Sending..." →
  (∀ t s, t ∈ times → s ∈ waiting f → (t < due s)%Z) →
  (∀ t t', t ∈ times → t' ∈ times → (t < t' + 2000)%Z) →
  ∃ b', submitButton (run times f) = Some b' ∧
        waiting (run times f)
          = waiting f ++ ((λ t, {| due := t + 2000; originalText := "Sending..." |}) <$> times) ∧
        shown (run times f) = shown f ∧ resets (run times f) = resets f ∧
        unhandled (run times f) = unhandled f.
Proof.
  revert f b. induction times as [|t times IH]; intros f b Hb Ht Hdue Hwin.
  { exists b. cbn. by rewrite app_nil_r. }
  cbn [run].
  assert (Hnone : run_due t f = f).
  { apply run_due_none. intros s Hs. apply Hdue; [by left|done]. }
  rewrite Hnone.
  assert (Hf : on_submit t f =
               {| submitButton :=
                    Some {| textContent := "Sending..."; disabled := true;
                            classList := classList_add "btn--loading" (classList b) |};
                  waiting := waiting f ++ [{| due := t + 2000; originalText := "Sending..." |}];
                  shown := shown f; resets := resets f; unhandled := unhandled f |}).
  { unfold on_submit. by rewrite Hb, Ht. }
  rewrite Hf.
  match goal with
  | |- context [run times ?g] =>
      destruct (IH g {| textContent := "Sending..."; disabled := true;
                        classList := classList_add "btn--loading" (classList b) |}
                  eq_refl eq_refl) as (b' & Hb' & Hw' & Hs' & Hr' & Hu')
  end.
  - intros t' s Ht' Hs. cbn [waiting] in Hs.
    apply elem_of_app in Hs as [Hs|Hs%list_elem_of_singleton].
    + apply Hdue; [by right|done].
    + subst s. cbn [due]. apply Hwin; [by right|by left].
  - intros t1 t2 H1 H2. apply Hwin; by right.
  - exists b'. split; [exact Hb'|].
    rewrite Hw', Hs', Hr', Hu'. cbn [waiting shown resets unhandled fmap list_fmap].
    by rewrite <- app_assoc.
Qed.

Lemma resume_all (ws : list handler) (f : form) (b : button) (s : handler) :
  submitButton f = Some b →
  ∃ b', submitButton (foldl resume f (ws ++ [s])) = Some b' ∧
        textContent b' = originalText s ∧ disabled b' = false ∧
        ("btn--loading" ∉ classList b') ∧
        waiting (foldl resume f (ws ++ [s])) = waiting f ∧
        shown (foldl resume f (ws ++ [s]))
          = shown f ++ ((λ s, (due s, Toast.sent_message, "success")) <$> ws ++ [s]) ∧
        resets (foldl resume f (ws ++ [s])) = (resets f + S (length ws))%nat ∧
        unhandled (foldl resume f (ws ++ [s])) = unhandled f.
Proof.
  revert f b. induction ws as [|w ws IH]; intros f b Hb.
  - cbn [app foldl]. unfold resume. rewrite Hb. eexists. split; [reflexivity|].
    cbn. repeat split; try done; [unfold classList_remove; set_solver | lia].
  - cbn [app foldl].
    edestruct (IH (resume f w)) as (b' & Hb' & Ht & Hd & Hc & Hw & Hs & Hr & Hu).
    { unfold resume. cbn [submitButton]. rewrite Hb. reflexivity. }
    exists b'. split; [exact Hb'|]. rewrite Hw, Hs, Hr, Hu.
    cbn [resume waiting shown resets unhandled fmap list_fmap length].
    rewrite <- app_assoc. repeat split; try done. lia.
Qed.

(** X23. Submissions that overlap: when further submits arrive within the
    2000 ms of the first, each of them takes the text Sending for the
    original text of the button, and the last handler to finish writes
    it back. The button ends enabled, without its loading class, but
    reading Sending for good; every submission has still shown its
    notification. *)
Theorem submit_overlap_sticks (b : button) (t : Z) (times : list Z) (until : Z) :
  times ≠ [] →
  (∀ t', t' ∈ times → (t ≤ t' < t + 2000)%Z) →
  (t + 4000 ≤ until)%Z →
  ∃ b', submitButton (settle (t :: times) until (form_with (Some b))) = Some b' ∧
        textContent b' = "Sending..." ∧ disabled b' = false ∧
        ("btn--loading" ∉ classList b') ∧
        waiting (settle (t :: times) until (form_with (Some b))) = [] ∧
        shown (settle (t :: times) until (form_with (Some b))) = note <$> t :: times ∧
        resets (settle (t :: times) until (form_with (Some b))) = S (length times).
Proof.
  intros Hne Hwin Hu. unfold settle. cbn [run].
  change (run_due t (form_with (Some b))) with (form_with (Some b)).
  set (f1 := on_submit t (form_with (Some b))).
  destruct (run_overlapping times f1 _ eq_refl eq_refl) as (b1 & Hb1 & Hw1 & Hs1 & Hr1 & _).
  { intros t' s Ht' Hs. cbn in Hs. apply list_elem_of_singleton in Hs as ->.
    cbn [due]. apply Hwin in Ht'. lia. }
  { intros t1 t2 H1%Hwin H2%Hwin. lia. }
  change (waiting f1) with [{| due := t + 2000; originalText := textContent b |}] in Hw1.
  change (shown f1) with (@nil (Z * string * string)) in Hs1.
  change (resets f1) with 0%nat in Hr1. cbn [app] in Hw1.
  destruct (exists_last Hne) as (pre & tn & ->).
  rewrite run_due_all.
  2:{ rewrite Hw1. intros s [->|Hs]%elem_of_cons; [cbn; lia|].
      apply list_elem_of_fmap in Hs as (t' & -> & Ht'). apply Hwin in Ht'. cbn. lia. }
  rewrite Hw1, Hs1, Hr1, Hb1. rewrite fmap_app. cbn [fmap list_fmap].
  rewrite app_comm_cons.
  edestruct (resume_all
               ({| due := t + 2000; originalText := textContent b |}
                  :: ((λ t, {| due := t + 2000; originalText := "Sending..." |}) <$> pre))
               {| submitButton := Some b1; waiting := []; shown := []; resets := 0;
                  unhandled := unhandled (run (pre ++ [tn]) f1) |}
               b1 {| due := tn + 2000; originalText := "Sending..." |} eq_refl)
    as (b' & Hb' & Ht & Hd & Hc & Hw & Hs & Hr & _).
  exists b'. split; [exact Hb'|]. rewrite Hw, Hs, Hr.
  cbn [waiting shown resets originalText] in *.
  split; [done|]. split; [done|]. split; [done|]. split; [done|]. split.
  - cbn [app]. rewrite !fmap_app, !fmap_cons, !fmap_app, <- list_fmap_compose. done.
  - cbn [length]. rewrite length_fmap, length_app. cbn [length]. lia.
Qed.

Lemma submit_overlap_sticks_witness :
  ∃ b', submitButton (settle [0; 1500]%Z 4000 (form_with (Some send_button))) = Some b' ∧
        textContent b' = "Sending..." ∧ disabled b' = false ∧
        ("btn--loading" ∉ classList b') ∧
        waiting (settle [0; 1500]%Z 4000 (form_with (Some send_button))) = [] ∧
        shown (settle [0; 1500]%Z 4000 (form_with (Some send_button)))
          = note <$> [0; 1500]%Z ∧
        resets (settle [0; 1500]%Z 4000 (form_with (Some send_button))) = 2%nat.
Proof.
  apply (submit_overlap_sticks send_button 0 [1500]%Z 4000).
  - discriminate.
  - intros t' ->%list_elem_of_singleton. lia.
  - lia.
Defined.

(** *** A form without a submit button *)

Lemma run_due_idle (t : Z) (f : form) : waiting f = [] → run_due t f = f.
Proof. intros Hw. apply run_due_none. rewrite Hw. by intros s ?%elem_of_nil. Qed.

(** X24. In a form without a submit button every run of the listener throws
    at once, before it sets a timeout: no notification is shown, not
    even the one of the catch block, and the form is never reset. *)
Theorem submit_without_button (times : list Z) (until : Z) :
  settle times until (form_with None)
  = {| submitButton := None; waiting := []; shown := []; resets := 0;
       unhandled := replicate (length times) "TypeError" |}.
Proof.
  unfold settle.
  assert (H : ∀ u, run times {| submitButton := None; waiting := []; shown := [];
                                resets := 0; unhandled := u |}
                   = {| submitButton := None; waiting := []; shown := []; resets := 0;
                        unhandled := u ++ replicate (length times) "TypeError" |}).
  { induction times as [|t times IH]; intros u.
    - cbn. by rewrite app_nil_r.
    - cbn [run]. rewrite run_due_idle by done. unfold on_submit.
      cbn [submitButton waiting shown resets unhandled]. rewrite IH.
      cbn [length replicate]. by rewrite <- app_assoc. }
  unfold form_with. rewrite H. by rewrite run_due_idle.
Qed.

End ContactFacts.

(** ** Parallax *)

Module ParallaxFacts.
Import JS Signals Parallax.

(** X25. The hero behind the throttled parallax listener, each scroll event
    with its time, scroll offset and hero height: the transform is minus
    half the offset of the last event that went through the throttle
    while the page was above the end of the hero, and is what it was if
    there is none. Scrolling on past the hero leaves the last such
    transform in place. *)
Theorem parallax_state (events : list (Z * (Q * Q))) (transform : option number) :
  foldl (λ tr e, handleParallax e.2.1 e.2.2 tr) transform (run_throttled 16 events idle)
  = match last (List.filter over_hero (run_throttled 16 events idle)) with
    | Some e => Some (Num (e.2.1 * - (1 # 2)))
    | None => transform
    end.
Proof.
  generalize (run_throttled 16 events idle). intros ran.
  induction ran as [|e ran IH] using rev_ind; [done|].
  rewrite foldl_app, List.filter_app. cbn [foldl List.filter].
  unfold handleParallax at 1. fold (over_hero e).
  destruct (over_hero e).
  - by rewrite last_snoc.
  - by rewrite app_nil_r, IH.
Qed.

End ParallaxFacts.
